(** * The real-time event-streaming client of the document question-answering
      front end

    A shallow embedding of
    - [frontend/lib/websocket.ts]: the [WebSocketManager] singleton (transport
      connection and local event dispatcher),
    - the chat interface component (the streaming query tracker: the handlers
      it registers with the dispatcher and the React state they update),
    - [frontend/hooks/use-document-updates.ts] and
      [frontend/components/documents/documents-panel.tsx] (the job progress
      tracker of the documents panel),
    followed by the properties of the specification that were checked on it.

    Conventions.  Integers that the code only compares or copies (document
    ids, conversation ids, token counts, clock readings) are [Z]; the other
    JavaScript numbers ([cost], [progress], [num_pages]) are IEEE doubles,
    [PrimFloat.float].  A JavaScript function that may throw is a computation
    in the monad [Js.M]: it returns a completion, normal or abrupt, together
    with the state it has reached. *)

From Stdlib Require Import ZArith PrimFloat.
From stdpp Require Import base option list gmap strings.

(** ** JavaScript completions *)

Module Js.

Inductive error :=
| ReferenceError (name : string)
| TypeError (msg : string).

Inductive completion (S A : Type) :=
| Normal (a : A) (s : S)
| Thrown (e : error) (s : S).
Arguments Normal {S A} a s.
Arguments Thrown {S A} e s.

Definition M (S A : Type) : Type := S -> completion S A.

Definition ret {S A} (a : A) : M S A := fun s => Normal a s.

Definition bind {S A B} (c : M S A) (k : A -> M S B) : M S B :=
  fun s =>
    match c s with
    | Normal a s' => k a s'
    | Thrown e s' => Thrown e s'
    end.

Definition throw {S} (e : error) : M S unit := fun s => Thrown e s.

Definition modify {S} (f : S -> S) : M S unit := fun s => Normal tt (f s).

Definition gets {S A} (f : S -> A) : M S A := fun s => Normal (f s) s.

(** [try { c } catch (e) { h e }] *)
Definition try_catch {S} (c : M S unit) (h : error -> M S unit) : M S unit :=
  fun s =>
    match c s with
    | Normal a s' => Normal a s'
    | Thrown e s' => h e s'
    end.

(** The state a computation leaves behind, however it completes. *)
Definition state_of {S A} (r : completion S A) : S :=
  match r with
  | Normal _ s => s
  | Thrown _ s => s
  end.

Definition threw {S A} (r : completion S A) : bool :=
  match r with
  | Normal _ _ => false
  | Thrown _ _ => true
  end.

Global Instance js_ret {S} : MRet (M S) := @ret S.
Global Instance js_bind {S} : MBind (M S) := fun A B k c => bind c k.

End Js.

(** ** frontend/lib/websocket.ts *)

Module WebSocket.

Import Js.

(** *** Types matching the backend chat service *)

Record QueryRequest := {
  question : string;
  document_id : Z;
  conversation_id : Z;
  use_cache : option bool;
  include_citations : option bool }.

Record QueryStartedEvent := {
  qs_question : string;
  qs_conversation_id : Z }.

Record Citation := {
  node_id : string;
  section : string;
  start_page : Z;
  end_page : Z }.

Record QueryCompletedEvent := {
  qc_conversation_id : Z;
  qc_tokens_used : Z;
  qc_cost : float }.

Record QueryErrorEvent := {
  message : string;
  qe_conversation_id : Z }.

Inductive ConnectionStatus := connected | disconnected | error.

Record ConnectionStatusEvent := {
  status : ConnectionStatus;
  cs_message : option string;
  sid : option string }.

(** The payload of [query:answer_complete]; the handlers read it through
    [data: any], every field may be missing. *)
Record AnswerCompleteEvent := {
  cost : option float;
  tokens_used : option Z;
  cached : option bool;
  citations : option (list Citation) }.

(** [data: any].  One constructor per payload shape of the wire contract;
    [POther] stands for the payloads the modelled handlers never look into
    ([query:answer], [query:progress], [tree:*], [document:update],
    [connected], [error]). *)
Inductive Payload :=
| PConnectionStatus (e : ConnectionStatusEvent)
| PQueryStarted (e : QueryStartedEvent)
| PQueryCompleted (e : QueryCompletedEvent)
| PQueryError (e : QueryErrorEvent)
| PChunk (chunk : string)
| PNodes (node_list : list string)
| PAnswerComplete (e : AnswerCompleteEvent)
| POther (tag : string).

(** [console.error(label, arg)] *)
Inductive LogArg :=
| ArgNone
| ArgString (s : string)
| ArgError (e : Js.error)
| ArgPayload (p : Payload).

Record LogEntry := console_error_entry {
  log_label : string;
  log_arg : LogArg }.

(** What handlers can touch: the console and the application state [App]
    of whoever registered them. *)
Record World (App : Type) := {
  console : list LogEntry;
  app : App }.
Arguments console {App} _.
Arguments app {App} _.

Definition console_error {App} (label : string) (arg : LogArg) (w : World App) : World App :=
  {| console := console w ++ [console_error_entry label arg]; app := app w |}.

(** The socket.io client object, as far as the manager looks at it: its
    [connected] flag and the options it was created with. *)
Record SocketOptions := {
  path : string;
  transports : list string;
  autoConnect : bool;
  reconnection : bool;
  reconnectionAttempts : Z;
  reconnectionDelay : Z }.

Record Socket := {
  socket_connected : bool;
  socket_opts : SocketOptions }.

Definition maxReconnectAttempts : Z := 5.
Definition reconnectDelay : Z := 1000.

(** [io(wsUrl, {...})]: a fresh socket, not yet connected. *)
Definition io : Socket :=
  {| socket_connected := false;
     socket_opts :=
       {| path := "/socket.io";
          transports := ["websocket"; "polling"];
          autoConnect := true;
          reconnection := true;
          reconnectionAttempts := maxReconnectAttempts;
          reconnectionDelay := reconnectDelay |} |}.

(** Frames written to the channel with [socket.emit]. *)
Inductive Frame :=
| query_frame (req : QueryRequest)
| message_frame (msg : string) (document_id conversation_id : option Z).

(** What socket.io fires on the socket. *)
Inductive Inbound :=
| In_connect
| In_disconnect (reason : string)
| In_connect_error (msg : string)
| In_event (name : string) (data : Payload).

(** A JavaScript [Set] of handlers: insertion ordered, no duplicates. *)
Section HandlerSet.
Context {Handler : Type} `{EqDecision Handler}.

Definition set_add (h : Handler) (hs : list Handler) : list Handler :=
  if decide (h ∈ hs) then hs else hs ++ [h].

Definition set_delete (h : Handler) (hs : list Handler) : list Handler :=
  filter (λ h', h' ≠ h) hs.
End HandlerSet.

Section Manager.

Context {Handler : Type} `{EqDecision Handler} {App : Type}.

(** Calling a registered function: handlers are kept by name, [call]
    gives the body of each. *)
Variable call : Handler -> Payload -> Js.M (World App) unit.

Record WebSocketManager := {
  socket : option Socket;
  listeners : gmap string (list Handler);
  reconnectAttempts : Z;
  isConnecting : bool }.

(** The manager, the world its listeners live in, and two ghost logs:
    [published] records every call of [emit], [channel] every frame
    written with [socket.emit]. *)
Record System := {
  mgr : WebSocketManager;
  world : World App;
  published : list (string * Payload);
  channel : list Frame }.

Definition new_manager : WebSocketManager :=
  {| socket := None; listeners := ∅; reconnectAttempts := 0; isConnecting := false |}.

Definition with_mgr (f : WebSocketManager -> WebSocketManager) (sys : System) : System :=
  {| mgr := f (mgr sys); world := world sys;
     published := published sys; channel := channel sys |}.

Definition with_world (f : World App -> World App) (sys : System) : System :=
  {| mgr := mgr sys; world := f (world sys);
     published := published sys; channel := channel sys |}.

(** [this.socket?.connected] *)
Definition socket_is_connected (m : WebSocketManager) : bool :=
  match socket m with
  | Some s => socket_connected s
  | None => false
  end.

(** *** on / off *)

Definition on (event : string) (handler : Handler) (m : WebSocketManager) : WebSocketManager :=
  let ls :=
    match listeners m !! event with
    | Some _ => listeners m
    | None => <[event := []]> (listeners m)
    end in
  {| socket := socket m;
     listeners := alter (set_add handler) event ls;
     reconnectAttempts := reconnectAttempts m;
     isConnecting := isConnecting m |}.

Definition off (event : string) (handler : Handler) (m : WebSocketManager) : WebSocketManager :=
  {| socket := socket m;
     listeners := alter (set_delete handler) event (listeners m);
     reconnectAttempts := reconnectAttempts m;
     isConnecting := isConnecting m |}.

(** *** emit *)

(** One record per handler invocation made by [forEach]. *)
Record Invocation := {
  inv_handler : Handler;
  inv_threw : bool }.

(** The body of the [forEach] callback:
    [try { handler(data) } catch (error) { console.error(..., error) }] *)
Definition invoke (event : string) (data : Payload) (handler : Handler) : Js.M (World App) unit :=
  try_catch (call handler data)
    (fun err => modify (console_error ("Error in event handler for " +:+ event +:+ ":") (ArgError err))).

(** [Set.prototype.forEach] over the handlers of one event, together with
    the record of the invocations made.  The handlers of this code base
    do not register or unregister listeners while they run. *)
Fixpoint forEach (hs : list Handler) (event : string) (data : Payload) (w : World App)
  : World App * list Invocation :=
  match hs with
  | [] => (w, [])
  | h :: rest =>
      let r := call h data w in
      let w1 := state_of (invoke event data h w) in
      let '(w2, log) := forEach rest event data w1 in
      (w2, {| inv_handler := h; inv_threw := threw r |} :: log)
  end.

(** [this.listeners.get(event)] as a list, empty when there is none. *)
Definition handlers_of (m : WebSocketManager) (event : string) : list Handler :=
  default [] (listeners m !! event).

Definition emit_run (event : string) (data : Payload) (sys : System) : System * list Invocation :=
  let '(w, log) := forEach (handlers_of (mgr sys) event) event data (world sys) in
  ({| mgr := mgr sys; world := w;
      published := published sys ++ [(event, data)];
      channel := channel sys |}, log).

Definition emit (event : string) (data : Payload) : Js.M System unit :=
  fun sys => Normal tt (fst (emit_run event data sys)).

Definition isConnected (sys : System) : bool := socket_is_connected (mgr sys).

Inductive ConnectionState := state_connected | state_disconnected | state_connecting.

Definition getConnectionState (sys : System) : ConnectionState :=
  if socket_is_connected (mgr sys) then state_connected
  else if isConnecting (mgr sys) then state_connecting
  else state_disconnected.

(** *** setupEventHandlers *)

Definition log_error (label : string) (arg : LogArg) : Js.M System unit :=
  modify (with_world (console_error label arg)).

(** [data.message], for the console only. *)
Definition message_arg (data : Payload) : LogArg :=
  match data with
  | PQueryError e => ArgString (message e)
  | PConnectionStatus e => from_option ArgString ArgNone (cs_message e)
  | _ => ArgNone
  end.

(** The [socket.on(name, data => this.emit(local, data))] registrations:
    inbound name, local event name, and the label of the [console.error]
    that precedes the [emit], if any. *)
Definition forwarded : list (string * (string * option string)) :=
  [ ("connected", ("server-connected", None));
    ("query:started", ("query:started", None));
    ("query:answer", ("query:answer", None));
    ("query:completed", ("query:completed", None));
    ("query:error", ("query:error", Some "Query: Error -"));
    ("query:thinking_stream", ("query:thinking_stream", None));
    ("query:nodes", ("query:nodes", None));
    ("query:answer_stream", ("query:answer_stream", None));
    ("query:answer_complete", ("query:answer_complete", None));
    ("query:progress", ("query:progress", None));
    ("tree:started", ("tree:started", None));
    ("tree:progress", ("tree:progress", None));
    ("tree:completed", ("tree:completed", None));
    ("tree:error", ("tree:error", Some "Tree: Generation error -"));
    ("document:update", ("document:update", None));
    ("error", ("socket-error", Some "Socket: Error -")) ].

Fixpoint registration (name : string) (table : list (string * (string * option string)))
  : option (string * option string) :=
  match table with
  | [] => None
  | (n, r) :: rest => if String.eqb n name then Some r else registration name rest
  end.

(** The handler that [setupEventHandlers] attached to the socket for
    each inbound event. *)
Definition setupEventHandlers (ev : Inbound) : Js.M System unit :=
  match ev with
  | In_connect =>
      modify (with_mgr (fun m =>
        {| socket := socket m; listeners := listeners m;
           reconnectAttempts := 0; isConnecting := false |})) ;;
      emit "connection-status"
        (PConnectionStatus
           {| status := connected; cs_message := Some "Connected to server"; sid := None |})
  | In_disconnect reason =>
      modify (with_mgr (fun m =>
        {| socket := socket m; listeners := listeners m;
           reconnectAttempts := reconnectAttempts m; isConnecting := false |})) ;;
      emit "connection-status"
        (PConnectionStatus
           {| status := disconnected; cs_message := Some reason; sid := None |})
  | In_connect_error msg =>
      log_error "WebSocket: Connection error -" (ArgString msg) ;;
      modify (with_mgr (fun m =>
        {| socket := socket m; listeners := listeners m;
           reconnectAttempts := (reconnectAttempts m + 1)%Z; isConnecting := false |})) ;;
      attempts ← gets (fun sys => reconnectAttempts (mgr sys)) ;
      if (maxReconnectAttempts <=? attempts)%Z then
        emit "connection-status"
          (PConnectionStatus
             {| status := error;
                cs_message := Some "Failed to connect to server after multiple attempts";
                sid := None |})
      else mret tt
  | In_event name data =>
      match registration name forwarded with
      | Some (local, Some label) => log_error label (message_arg data) ;; emit local data
      | Some (local, None) => emit local data
      | None => mret tt
      end
  end.

(** socket.io keeps the [connected] flag: set before [connect] fires,
    cleared before [disconnect] fires. *)
Definition set_socket_connected (b : bool) (m : WebSocketManager) : WebSocketManager :=
  {| socket := (fun s => {| socket_connected := b; socket_opts := socket_opts s |}) <$> socket m;
     listeners := listeners m;
     reconnectAttempts := reconnectAttempts m;
     isConnecting := isConnecting m |}.

(** socket.io fires an inbound event on the manager's current socket;
    without a socket there is nothing it could fire on. *)
Definition fire (ev : Inbound) : Js.M System unit :=
  fun sys =>
    match socket (mgr sys) with
    | None => Normal tt sys
    | Some _ =>
        match ev with
        | In_connect => setupEventHandlers ev (with_mgr (set_socket_connected true) sys)
        | In_disconnect _ => setupEventHandlers ev (with_mgr (set_socket_connected false) sys)
        | _ => setupEventHandlers ev sys
        end
    end.

(** *** connect / disconnect *)

Definition connect : Js.M System unit :=
  fun sys =>
    if socket_is_connected (mgr sys) || isConnecting (mgr sys) then Normal tt sys
    else
      Normal tt
        (with_mgr (fun m =>
           {| socket := Some io;
              listeners := listeners m;
              reconnectAttempts := reconnectAttempts m;
              isConnecting := true |}) sys).

(** [this.socket.disconnect()] closes a connected socket, which fires its
    [disconnect] event with reason [io client disconnect] before the
    call returns; then the manager forgets the socket. *)
Definition disconnect : Js.M System unit :=
  fun sys =>
    match socket (mgr sys) with
    | Some s =>
        ((if socket_connected s then fire (In_disconnect "io client disconnect") else mret tt) ;;
         modify (with_mgr (fun m =>
           {| socket := None;
              listeners := listeners m;
              reconnectAttempts := reconnectAttempts m;
              isConnecting := false |}))) sys
    | None => Normal tt sys
    end.

(** *** sendQuery / sendMessage *)

Definition socket_emit (f : Frame) : Js.M System unit :=
  modify (fun sys =>
    {| mgr := mgr sys; world := world sys;
       published := published sys; channel := channel sys ++ [f] |}).

Definition sendQuery (queryRequest : QueryRequest) : Js.M System unit :=
  fun sys =>
    if negb (socket_is_connected (mgr sys)) then
      (log_error "WebSocket: Cannot send query - not connected" ArgNone ;;
       emit "query:error"
         (PQueryError
            {| message := "Not connected to server. Please try again.";
               qe_conversation_id := conversation_id queryRequest |})) sys
    else socket_emit (query_frame queryRequest) sys.

(** The [timestamp] field of the frame (the wall clock) is left out. *)
Definition sendMessage (msg : string) (documentId conversationId : option Z) : Js.M System unit :=
  fun sys =>
    if negb (socket_is_connected (mgr sys)) then
      log_error "WebSocket: Cannot send message - not connected" ArgNone sys
    else socket_emit (message_frame msg documentId conversationId) sys.

End Manager.

End WebSocket.

(** ** The chat interface component *)

Module Chat.

Import Js WebSocket.

Inductive Role := user | assistant | system.

(** [id] is the number that the code turns into the id string
    ([Date.now() + 1]); [timestamp] is the clock reading of [new Date()]. *)
Record Message := {
  id : Z;
  role : Role;
  content : string;
  timestamp : Z;
  isStreaming : option bool;
  documentContext : option string;
  cost : option float;
  tokens : option Z;
  cached : option bool;
  citations : option (list Citation) }.

(** The [useState] cells of the component that the socket listeners write
    ([isConnected] and [connectionStatus] are those of [useWebSocket]). *)
Record State := {
  messages : list Message;
  isLoading : bool;
  currentQuestionId : option string;
  streamedThinking : string;
  streamedNodes : list string;
  streamedAnswer : string;
  isStreamingAnswer : bool;
  isConnected : bool;
  connectionStatus : ConnectionStatusEvent }.

(** A queued state update: the argument of one [setX(...)] call.  The
    [Append] constructors are the functional updaters
    [prev => prev + chunk] and [prev => [...prev, m]]. *)
Inductive Update :=
| AppendMessage (m : Message)
| SetIsLoading (b : bool)
| SetCurrentQuestionId (q : option string)
| AppendStreamedThinking (chunk : string)
| SetStreamedThinking (v : string)
| SetStreamedNodes (v : list string)
| AppendStreamedAnswer (chunk : string)
| SetStreamedAnswer (v : string)
| SetIsStreamingAnswer (b : bool)
| SetIsConnected (b : bool)
| SetConnectionStatus (e : ConnectionStatusEvent).

Definition apply_update (st : State) (u : Update) : State :=
  match u with
  | AppendMessage m =>
      {| messages := messages st ++ [m]; isLoading := isLoading st;
         currentQuestionId := currentQuestionId st; streamedThinking := streamedThinking st;
         streamedNodes := streamedNodes st; streamedAnswer := streamedAnswer st;
         isStreamingAnswer := isStreamingAnswer st; isConnected := isConnected st;
         connectionStatus := connectionStatus st |}
  | SetIsLoading b =>
      {| messages := messages st; isLoading := b;
         currentQuestionId := currentQuestionId st; streamedThinking := streamedThinking st;
         streamedNodes := streamedNodes st; streamedAnswer := streamedAnswer st;
         isStreamingAnswer := isStreamingAnswer st; isConnected := isConnected st;
         connectionStatus := connectionStatus st |}
  | SetCurrentQuestionId q =>
      {| messages := messages st; isLoading := isLoading st;
         currentQuestionId := q; streamedThinking := streamedThinking st;
         streamedNodes := streamedNodes st; streamedAnswer := streamedAnswer st;
         isStreamingAnswer := isStreamingAnswer st; isConnected := isConnected st;
         connectionStatus := connectionStatus st |}
  | AppendStreamedThinking chunk =>
      {| messages := messages st; isLoading := isLoading st;
         currentQuestionId := currentQuestionId st;
         streamedThinking := streamedThinking st +:+ chunk;
         streamedNodes := streamedNodes st; streamedAnswer := streamedAnswer st;
         isStreamingAnswer := isStreamingAnswer st; isConnected := isConnected st;
         connectionStatus := connectionStatus st |}
  | SetStreamedThinking v =>
      {| messages := messages st; isLoading := isLoading st;
         currentQuestionId := currentQuestionId st; streamedThinking := v;
         streamedNodes := streamedNodes st; streamedAnswer := streamedAnswer st;
         isStreamingAnswer := isStreamingAnswer st; isConnected := isConnected st;
         connectionStatus := connectionStatus st |}
  | SetStreamedNodes v =>
      {| messages := messages st; isLoading := isLoading st;
         currentQuestionId := currentQuestionId st; streamedThinking := streamedThinking st;
         streamedNodes := v; streamedAnswer := streamedAnswer st;
         isStreamingAnswer := isStreamingAnswer st; isConnected := isConnected st;
         connectionStatus := connectionStatus st |}
  | AppendStreamedAnswer chunk =>
      {| messages := messages st; isLoading := isLoading st;
         currentQuestionId := currentQuestionId st; streamedThinking := streamedThinking st;
         streamedNodes := streamedNodes st;
         streamedAnswer := streamedAnswer st +:+ chunk;
         isStreamingAnswer := isStreamingAnswer st; isConnected := isConnected st;
         connectionStatus := connectionStatus st |}
  | SetStreamedAnswer v =>
      {| messages := messages st; isLoading := isLoading st;
         currentQuestionId := currentQuestionId st; streamedThinking := streamedThinking st;
         streamedNodes := streamedNodes st; streamedAnswer := v;
         isStreamingAnswer := isStreamingAnswer st; isConnected := isConnected st;
         connectionStatus := connectionStatus st |}
  | SetIsStreamingAnswer b =>
      {| messages := messages st; isLoading := isLoading st;
         currentQuestionId := currentQuestionId st; streamedThinking := streamedThinking st;
         streamedNodes := streamedNodes st; streamedAnswer := streamedAnswer st;
         isStreamingAnswer := b; isConnected := isConnected st;
         connectionStatus := connectionStatus st |}
  | SetIsConnected b =>
      {| messages := messages st; isLoading := isLoading st;
         currentQuestionId := currentQuestionId st; streamedThinking := streamedThinking st;
         streamedNodes := streamedNodes st; streamedAnswer := streamedAnswer st;
         isStreamingAnswer := isStreamingAnswer st; isConnected := b;
         connectionStatus := connectionStatus st |}
  | SetConnectionStatus e =>
      {| messages := messages st; isLoading := isLoading st;
         currentQuestionId := currentQuestionId st; streamedThinking := streamedThinking st;
         streamedNodes := streamedNodes st; streamedAnswer := streamedAnswer st;
         isStreamingAnswer := isStreamingAnswer st; isConnected := isConnected st;
         connectionStatus := e |}
  end.

(** The component instance as React holds it: the state of the last
    render, the updates queued since, and the number of renders so far. *)
Record Component := {
  committed : State;
  pending : list Update;
  renders : nat }.

(** Processing the update queue, oldest first. *)
Definition flush (c : Component) : State :=
  fold_left apply_update (pending c) (committed c).

Inductive Toast :=
| toast_success_cached
| toast_success_completed (tokens_used : option Z) (cost : float)
| toast_error_query_failed (message : string).

Record App := {
  chat : Component;
  toasts : list Toast;
  now : Z }.

Abbreviation World := (WebSocket.World App).

Definition setState (u : Update) : Js.M World unit :=
  modify (fun w =>
    {| console := console w;
       app := {| chat := {| committed := committed (chat (app w));
                            pending := pending (chat (app w)) ++ [u];
                            renders := renders (chat (app w)) |};
                 toasts := toasts (app w);
                 now := now (app w) |} |}).

Definition toast (t : Toast) : Js.M World unit :=
  modify (fun w =>
    {| console := console w;
       app := {| chat := chat (app w); toasts := toasts (app w) ++ [t]; now := now (app w) |} |}).

Definition console_error (label : string) (arg : LogArg) : Js.M World unit :=
  modify (WebSocket.console_error label arg).

Definition Date_now : Js.M World Z := gets (fun w => now (app w)).

(** *** Identifier resolution

    The identifiers bound where the body of a listener runs: the imports
    of the module, the parameters and locals of the component, the
    functions declared in the listener effect, the locals of the handlers
    and the globals the file refers to.  Calling a name that is not bound
    raises a [ReferenceError]. *)
Definition scope : list string :=
  [ "useState"; "useRef"; "useEffect"; "useCallback"; "Button"; "Input";
    "Select"; "SelectContent"; "SelectItem"; "SelectTrigger"; "SelectValue";
    "MessageBubble"; "Send"; "StopCircle"; "FileText"; "AlertCircle"; "Bot";
    "cn"; "documentsApi"; "conversationsApi"; "useWebSocket"; "toast";
    "ChatInterface"; "selectedDocument"; "onNavigateToDocuments";
    "messages"; "setMessages"; "input"; "setInput"; "isLoading"; "setIsLoading";
    "documents"; "setDocuments"; "selectedDocId"; "setSelectedDocId";
    "loadingDocs"; "setLoadingDocs"; "conversationId"; "setConversationId";
    "currentQuestionId"; "setCurrentQuestionId";
    "streamedThinking"; "setStreamedThinking"; "streamedNodes"; "setStreamedNodes";
    "streamedAnswer"; "setStreamedAnswer"; "isStreamingAnswer"; "setIsStreamingAnswer";
    "messagesEndRef"; "inputRef"; "isConnected"; "sendQuery"; "on"; "off";
    "scrollToBottom"; "loadDocuments"; "createConversation";
    "handleDocumentChange"; "handleSend"; "handleKeyPress";
    "handleThinkingStream"; "handleNodes"; "handleAnswerStream";
    "handleAnswerComplete"; "handleQueryError"; "handleQueryStarted";
    "handleQueryCompleted"; "data"; "assistantMessage"; "errorMessage";
    "console"; "Date"; "parseInt"; "process" ].

Definition resolve (name : string) : Js.M World unit :=
  if decide (name ∈ scope) then mret tt else throw (ReferenceError name).

(** *** Reading fields of [data: any]

    A payload without the field gives [undefined]; in a string
    concatenation or a template literal that prints as ["undefined"]. *)
Definition data_chunk (data : Payload) : string :=
  match data with
  | PChunk chunk => chunk
  | _ => "undefined"
  end.

Definition data_message (data : Payload) : string :=
  match data with
  | PQueryError e => message e
  | PConnectionStatus e => default "undefined" (cs_message e)
  | _ => "undefined"
  end.

(** Payloads follow the wire contract: the model has no [undefined] node
    list, a payload of another shape reads as the empty list. *)
Definition data_node_list (data : Payload) : list string :=
  match data with
  | PNodes node_list => node_list
  | _ => []
  end.

Definition data_answer (data : Payload) : AnswerCompleteEvent :=
  match data with
  | PAnswerComplete e => e
  | _ => {| WebSocket.cost := None; tokens_used := None;
            WebSocket.cached := None; WebSocket.citations := None |}
  end.

(** *** The listeners

    A listener applied to a payload of another shape than the one its
    event has on the wire reads [undefined] fields; what the model cannot
    hold ([setConnectionStatus] of such an object) is left out.

    A handler is a closure: [render] is the render whose effect created
    it (its identity), and [handleAnswerComplete] carries the value of the
    state variable [streamedAnswer] of that render, which its body reads. *)
Inductive Handler :=
| handleConnectionStatus
| handleThinkingStream (render : nat)
| handleNodes (render : nat)
| handleAnswerStream (render : nat)
| handleAnswerComplete (render : nat) (streamedAnswer : string)
| handleQueryError (render : nat)
| handleQueryStarted (render : nat)
| handleQueryCompleted (render : nat).

Global Instance Handler_eq_dec : EqDecision Handler.
Proof. solve_decision. Defined.

Definition call (h : Handler) (data : Payload) : Js.M World unit :=
  match h with
  | handleConnectionStatus =>
      match data with
      | PConnectionStatus e =>
          setState (SetConnectionStatus e) ;;
          setState (SetIsConnected
                      (match status e with connected => true | _ => false end))
      | _ => setState (SetIsConnected false)
      end
  | handleThinkingStream _ =>
      setState (AppendStreamedThinking (data_chunk data))
  | handleNodes _ =>
      setState (SetStreamedNodes (data_node_list data))
  | handleAnswerStream _ =>
      setState (SetIsStreamingAnswer true) ;;
      setState (AppendStreamedAnswer (data_chunk data))
  | handleAnswerComplete _ streamedAnswer =>
      setState (SetIsStreamingAnswer false) ;;
      t ← Date_now ;
      let d := data_answer data in
      let assistantMessage :=
        {| id := (t + 1)%Z; role := assistant; content := streamedAnswer;
           timestamp := t; isStreaming := None; documentContext := None;
           cost := WebSocket.cost d; tokens := tokens_used d;
           cached := WebSocket.cached d; citations := WebSocket.citations d |} in
      setState (AppendMessage assistantMessage) ;;
      setState (SetIsLoading false) ;;
      setState (SetCurrentQuestionId None) ;;
      setState (SetStreamedThinking EmptyString) ;;
      setState (SetStreamedNodes []) ;;
      setState (SetStreamedAnswer EmptyString) ;;
      if default false (WebSocket.cached d) then toast toast_success_cached
      else
        match WebSocket.cost d with
        | Some c => toast (toast_success_completed (tokens_used d) c)
        | None => throw (TypeError "Cannot read properties of undefined (reading 'toFixed')")
        end
  | handleQueryError _ =>
      console_error "Query error:" (ArgPayload data) ;;
      t ← Date_now ;
      let errorMessage :=
        {| id := (t + 1)%Z; role := system; content := "Error: " +:+ data_message data;
           timestamp := t; isStreaming := None; documentContext := None;
           cost := None; tokens := None; cached := None; citations := None |} in
      setState (AppendMessage errorMessage) ;;
      setState (SetIsLoading false) ;;
      setState (SetCurrentQuestionId None) ;;
      resolve "setThinkingProcess" ;;
      toast (toast_error_query_failed (data_message data))
  | handleQueryStarted _ =>
      setState (SetStreamedThinking EmptyString) ;;
      setState (SetStreamedNodes []) ;;
      setState (SetStreamedAnswer EmptyString)
  | handleQueryCompleted _ =>
      setState (SetIsLoading false)
  end.

Abbreviation Manager := (@WebSocketManager Handler).
Abbreviation System := (@WebSocket.System Handler App).

(** *** The listener effect, [useEffect(..., [on, off, streamedAnswer])]

    [registrations r a] are the [on(...)] calls of the effect that runs
    after render [r], in which [streamedAnswer] had the value [a]; the
    clean-up function of that effect calls [off] on the same pairs. *)
Definition registrations (r : nat) (a : string) : list (string * Handler) :=
  [ ("query:thinking_stream", handleThinkingStream r);
    ("query:nodes", handleNodes r);
    ("query:answer_stream", handleAnswerStream r);
    ("query:answer_complete", handleAnswerComplete r a);
    ("query:error", handleQueryError r);
    ("query:started", handleQueryStarted r);
    ("query:completed", handleQueryCompleted r) ].

Definition effect_setup (r : nat) (a : string) (m : Manager) : Manager :=
  fold_left (fun m '(event, h) => on event h m) (registrations r a) m.

Definition effect_cleanup (r : nat) (a : string) (m : Manager) : Manager :=
  fold_left (fun m '(event, h) => off event h m) (registrations r a) m.

(** A render: React processes the queued updates and calls the component
    with the new state.  [useWebSocket] returns freshly bound [on] and
    [off] on every call, so the dependencies of the listener effect differ
    after every render: the clean-up of the previous effect runs, then the
    effect registers new closures over the state of this render.  The
    commit and its effects are one step: no socket event is taken to arrive
    between them. *)
Definition render (sys : System) : System :=
  let c := chat (app (world sys)) in
  let st := flush c in
  {| mgr := effect_setup (S (renders c)) (streamedAnswer st)
              (effect_cleanup (renders c) (streamedAnswer (committed c)) (mgr sys));
     world := {| console := console (world sys);
                 app := {| chat := {| committed := st; pending := []; renders := S (renders c) |};
                           toasts := toasts (app (world sys));
                           now := now (app (world sys)) |} |};
     published := published sys;
     channel := channel sys |}.

(** *** Mounting the component *)

Definition greeting (t : Z) : Message :=
  {| id := 1; role := assistant;
     content := "Hello! I'm your RAG assistant powered by PageIndex. I can help you understand and query your documents using two-stage reasoning-based retrieval. Select a document above to get started!";
     timestamp := t; isStreaming := None; documentContext := None;
     cost := None; tokens := None; cached := None; citations := None |}.

Definition initial_state (t : Z) : State :=
  {| messages := [greeting t]; isLoading := false; currentQuestionId := None;
     streamedThinking := EmptyString; streamedNodes := []; streamedAnswer := EmptyString;
     isStreamingAnswer := false; isConnected := false;
     connectionStatus := {| status := disconnected; cs_message := None; sid := None |} |}.

(** The module has just been loaded: [new WebSocketManager()], nothing
    rendered yet. *)
Definition boot (t : Z) : System :=
  {| mgr := new_manager;
     world := {| console := [];
                 app := {| chat := {| committed := initial_state t; pending := []; renders := 0 |};
                           toasts := [];
                           now := t |} |};
     published := [];
     channel := [] |}.

(** The effects of the first render, in hook order: the effect of
    [useWebSocket] subscribes to [connection-status] and connects, then the
    listener effect registers the seven query handlers. *)
Definition mount (t : Z) : System :=
  let sys1 := with_mgr (on "connection-status" handleConnectionStatus) (boot t) in
  let sys2 := if WebSocket.isConnected sys1 then sys1 else state_of (connect sys1) in
  with_mgr (effect_setup 0 EmptyString) sys2.

(** *** Tasks of the event loop *)

Inductive Step :=
| Deliver (ev : Inbound)
| Render
| SendQuery (req : QueryRequest)
| Connect
| Disconnect
| Tick (t : Z).

Definition set_now (t : Z) (sys : System) : System :=
  with_world (fun w =>
    {| console := console w;
       app := {| chat := chat (app w); toasts := toasts (app w); now := t |} |}) sys.

(** Each task runs to completion; an exception that escapes a task ends
    that task only. *)
Definition step (sys : System) (s : Step) : System :=
  match s with
  | Deliver ev => state_of (fire call ev sys)
  | Render => render sys
  | SendQuery req => state_of (sendQuery call req sys)
  | Connect => state_of (connect sys)
  | Disconnect => state_of (disconnect call sys)
  | Tick t => set_now t sys
  end.

Definition run (tr : list Step) (sys : System) : System := fold_left step tr sys.

(** The hook state as the next render will see it. *)
Definition live (sys : System) : State := flush (chat (app (world sys))).

(** The state of the last render, which is what is on screen. *)
Definition shown (sys : System) : State := committed (chat (app (world sys))).

(** Inbound query events, by their wire names. *)
Definition thinking_stream (chunk : string) : Step :=
  Deliver (In_event "query:thinking_stream" (PChunk chunk)).
Definition nodes (node_list : list string) : Step :=
  Deliver (In_event "query:nodes" (PNodes node_list)).
Definition answer_stream (chunk : string) : Step :=
  Deliver (In_event "query:answer_stream" (PChunk chunk)).
Definition answer_complete (e : AnswerCompleteEvent) : Step :=
  Deliver (In_event "query:answer_complete" (PAnswerComplete e)).
Definition query_error (e : QueryErrorEvent) : Step :=
  Deliver (In_event "query:error" (PQueryError e)).
Definition query_started (e : QueryStartedEvent) : Step :=
  Deliver (In_event "query:started" (PQueryStarted e)).

End Chat.

(** ** JavaScript truthiness, for [a || b] *)

Module Truthy.

(** A number is falsy when it is [0], [-0] or [NaN]. *)
Definition number (x : float) : bool :=
  negb (PrimFloat.eqb x 0%float) && PrimFloat.eqb x x.

(** A string is falsy when it is empty. *)
Definition str (s : string) : bool :=
  match s with
  | EmptyString => false
  | String _ _ => true
  end.

(** [a || b] on optional fields: [a] when it is present and truthy. *)
Definition or_else {A} (truthy : A -> bool) (a b : option A) : option A :=
  match a with
  | Some x => if truthy x then Some x else b
  | None => b
  end.

(** [a || d] with a default that is always there. *)
Definition or_default {A} (truthy : A -> bool) (a : option A) (d : A) : A :=
  match a with
  | Some x => if truthy x then x else d
  | None => d
  end.

End Truthy.

(** ** frontend/hooks/use-document-updates.ts and the documents panel *)

Module Documents.

Inductive DocumentStatus := uploaded | processing | indexed | error.

Inductive TreeStatus := tree_started | tree_processing | tree_completed | tree_error.

Record DocumentUpdateEvent := {
  doc_id : Z;
  status : DocumentStatus;
  message : option string;
  num_pages : option float;
  progress : option float }.

Record TreeGenerationEvent := {
  t_doc_id : Z;
  tree_id : option Z;
  t_status : TreeStatus;
  t_message : option string;
  t_progress : option float;
  num_nodes : option float;
  t_num_pages : option float }.

(** The [Document] of the panel; [uploadDate] is a clock reading. *)
Record Document := {
  id : Z;
  name : string;
  size : Z;
  uploadDate : Z;
  doc_status : DocumentStatus;
  pageCount : option float;
  treeGenerated : option bool;
  doc_progress : option float }.

(** Calls of [toast.*]; [toast_id] is the document of the [tree-<id>]
    toast id, when one is given.  Numbers inside a default text are kept
    as they are, the code prints them rounded. *)
Inductive ToastKind := toast_loading | toast_success | toast_error.

Inductive ToastText :=
| Text (s : string)
| DocumentProcessingFailed
| StartingTreeGeneration
| GeneratingTree (progress : option float)
| TreeGenerated (details : option (float * option float))
| TreeGenerationFailed.

Record ToastCall := {
  toast_kind : ToastKind;
  toast_text : ToastText;
  toast_id : option Z }.

(** The state of the panel that the socket callbacks write.  Every update
    of it is a functional one ([setDocuments(prev => ...)]), so the queued
    updates compose in order and the state is kept with them applied. *)
Record Panel := {
  documents : list Document;
  generatingTreeFor : gset Z;
  toasts : list ToastCall;
  console : list string }.

Definition message_or (message : option string) (d : ToastText) : ToastText :=
  match message with
  | Some s => if Truthy.str s then Text s else d
  | None => d
  end.

Definition toast (k : ToastKind) (t : ToastText) (i : option Z) (p : Panel) : Panel :=
  {| documents := documents p; generatingTreeFor := generatingTreeFor p;
     toasts := toasts p ++ [{| toast_kind := k; toast_text := t; toast_id := i |}];
     console := console p |}.

Definition setDocuments (f : list Document -> list Document) (p : Panel) : Panel :=
  {| documents := f (documents p); generatingTreeFor := generatingTreeFor p;
     toasts := toasts p; console := console p |}.

Definition setGeneratingTreeFor (f : gset Z -> gset Z) (p : Panel) : Panel :=
  {| documents := documents p; generatingTreeFor := f (generatingTreeFor p);
     toasts := toasts p; console := console p |}.

Definition console_error (label : string) (p : Panel) : Panel :=
  {| documents := documents p; generatingTreeFor := generatingTreeFor p;
     toasts := toasts p; console := console p ++ [label] |}.

(** *** onDocumentUpdate *)

(** The object literal of the [map] callback, for the matching document. *)
Definition document_updated (event : DocumentUpdateEvent) (doc : Document) : Document :=
  {| id := id doc; name := name doc; size := size doc; uploadDate := uploadDate doc;
     doc_status := status event;
     pageCount := Truthy.or_else Truthy.number (num_pages event) (pageCount doc);
     treeGenerated := treeGenerated doc;
     doc_progress := progress event |}.

Definition onDocumentUpdate (event : DocumentUpdateEvent) (p : Panel) : Panel :=
  let p1 :=
    setDocuments
      (fmap (fun doc => if (id doc =? doc_id event)%Z then document_updated event doc else doc)) p in
  match status event with
  | error => toast toast_error (message_or (message event) DocumentProcessingFailed) None p1
  | _ => p1
  end.

(** *** onTreeGeneration *)

Definition tree_updated (event : TreeGenerationEvent) (doc : Document) : Document :=
  {| id := id doc; name := name doc; size := size doc; uploadDate := uploadDate doc;
     doc_status := match t_status event with
                   | tree_completed => indexed
                   | _ => doc_status doc
                   end;
     pageCount := pageCount doc;
     treeGenerated := Some (match t_status event with
                            | tree_completed => true
                            | _ => false
                            end);
     doc_progress := t_progress event |}.

Definition truthy_progress (progress : option float) : option float :=
  Truthy.or_else Truthy.number progress None.

Definition onTreeGeneration (event : TreeGenerationEvent) (p : Panel) : Panel :=
  let doc_id := t_doc_id event in
  let p1 :=
    setDocuments
      (fmap (fun doc => if (id doc =? doc_id)%Z then tree_updated event doc else doc)) p in
  match t_status event with
  | tree_started =>
      toast toast_loading (message_or (t_message event) StartingTreeGeneration) (Some doc_id) p1
  | tree_processing =>
      toast toast_loading
        (message_or (t_message event) (GeneratingTree (truthy_progress (t_progress event))))
        (Some doc_id) p1
  | tree_completed =>
      let p2 := setGeneratingTreeFor (fun prev => prev ∖ {[doc_id]}) p1 in
      let details :=
        match truthy_progress (num_nodes event) with
        | Some n => Some (n, t_num_pages event)
        | None => None
        end in
      toast toast_success (message_or (t_message event) (TreeGenerated details)) (Some doc_id) p2
  | tree_error =>
      let p2 := setGeneratingTreeFor (fun prev => prev ∖ {[doc_id]}) p1 in
      toast toast_error (message_or (t_message event) TreeGenerationFailed) (Some doc_id) p2
  end.

Definition onError (p : Panel) : Panel := console_error "WebSocket error:" p.

(** *** useDocumentUpdates: the handlers attached to its socket *)

Inductive SocketEvent :=
| connect_error
| document_update (event : DocumentUpdateEvent)
| document_processing (event : DocumentUpdateEvent)
| document_indexed (event : DocumentUpdateEvent)
| document_error (event : DocumentUpdateEvent)
| tree_started_event (event : TreeGenerationEvent)
| tree_progress_event (event : TreeGenerationEvent)
| tree_completed_event (event : TreeGenerationEvent)
| tree_error_event (event : TreeGenerationEvent).

(** [{ ...event, status: s }] *)
Definition with_status (s : DocumentStatus) (event : DocumentUpdateEvent) : DocumentUpdateEvent :=
  {| doc_id := doc_id event; status := s; message := message event;
     num_pages := num_pages event; progress := progress event |}.

Definition with_tree_status (s : TreeStatus) (event : TreeGenerationEvent) : TreeGenerationEvent :=
  {| t_doc_id := t_doc_id event; tree_id := tree_id event; t_status := s;
     t_message := t_message event; t_progress := t_progress event;
     num_nodes := num_nodes event; t_num_pages := t_num_pages event |}.

Definition socket_on (ev : SocketEvent) (p : Panel) : Panel :=
  match ev with
  | connect_error =>
      onError (console_error "WebSocket connection error:" p)
  | document_update event => onDocumentUpdate event p
  | document_processing event => onDocumentUpdate (with_status processing event) p
  | document_indexed event => onDocumentUpdate (with_status indexed event) p
  | document_error event =>
      onDocumentUpdate (with_status error event) (console_error "Document error:" p)
  | tree_started_event event => onTreeGeneration (with_tree_status tree_started event) p
  | tree_progress_event event => onTreeGeneration (with_tree_status tree_processing event) p
  | tree_completed_event event => onTreeGeneration (with_tree_status tree_completed event) p
  | tree_error_event event =>
      onTreeGeneration (with_tree_status tree_error event)
        (console_error "Tree generation error:" p)
  end.

Definition deliver (evs : list SocketEvent) (p : Panel) : Panel :=
  fold_left (fun p ev => socket_on ev p) evs p.

(** The stored record of a job. *)
Definition job (jobId : Z) (p : Panel) : option Document :=
  find (fun doc => bool_decide (id doc = jobId)) (documents p).

(** A status from which the specification allows no further change. *)
Definition terminal (s : DocumentStatus) : bool :=
  match s with
  | indexed | error => true
  | uploaded | processing => false
  end.

End Documents.

(** ** Observations used in the statements *)

Module Observe.

Import Js WebSocket.



(** The two publications the manager makes on its own account. *)
Definition terminal_status : string * Payload :=
  ("connection-status",
   PConnectionStatus
     {| status := error;
        cs_message := Some "Failed to connect to server after multiple attempts";
        sid := None |}).

Definition not_connected_error (req : QueryRequest) : string * Payload :=
  ("query:error",
   PQueryError
     {| message := "Not connected to server. Please try again.";
        qe_conversation_id := conversation_id req |}).


Section Fire.
Context {Handler : Type} `{EqDecision Handler} {App : Type}.
Variable call : Handler -> Payload -> Js.M (World App) unit.

End Fire.

(** Chunks joined in arrival order. *)
Definition join (chunks : list string) : string :=
  fold_right String.append EmptyString chunks.

(** What a question's stream consists of before its terminal event:
    chunk and node events, with renders in between wherever React
    schedules them. *)
Inductive StreamEvent :=
| Thinking (chunk : string)
| Nodes (node_list : list string)
| Answer (chunk : string)
| Rendered.

Definition stream_step (e : StreamEvent) : Chat.Step :=
  match e with
  | Thinking chunk => Chat.thinking_stream chunk
  | Nodes node_list => Chat.nodes node_list
  | Answer chunk => Chat.answer_stream chunk
  | Rendered => Chat.Render
  end.

Definition thinking_chunks (evs : list StreamEvent) : list string :=
  omap (λ e, match e with Thinking chunk => Some chunk | _ => None end) evs.

Definition answer_chunks (evs : list StreamEvent) : list string :=
  omap (λ e, match e with Answer chunk => Some chunk | _ => None end) evs.

Definition node_lists (evs : list StreamEvent) : list (list string) :=
  omap (λ e, match e with Nodes node_list => Some node_list | _ => None end) evs.

(** The accumulation state of the tracker. *)
Definition accumulators (st : Chat.State) : string * list string * string :=
  (Chat.streamedThinking st, Chat.streamedNodes st, Chat.streamedAnswer st).

(** The terminal events of a question. *)
Inductive Terminal :=
| Completed (e : AnswerCompleteEvent)
| Failed (e : QueryErrorEvent).

Definition terminal_step (t : Terminal) : Chat.Step :=
  match t with
  | Completed e => Chat.answer_complete e
  | Failed e => Chat.query_error e
  end.

(** The world after the calls [setX(...)] for the updates [us]. *)
Definition queue (us : list Chat.Update) (w : Chat.World) : Chat.World :=
  {| console := console w;
     app := {| Chat.chat := {| Chat.committed := Chat.committed (Chat.chat (app w));
                               Chat.pending := Chat.pending (Chat.chat (app w)) ++ us;
                               Chat.renders := Chat.renders (Chat.chat (app w)) |};
               Chat.toasts := Chat.toasts (app w);
               Chat.now := Chat.now (app w) |} |}.

(** The world after one more [toast.*(...)] call. *)
Definition add_toast (t : Chat.Toast) (w : Chat.World) : Chat.World :=
  {| console := console w;
     app := {| Chat.chat := Chat.chat (app w);
               Chat.toasts := Chat.toasts (app w) ++ [t];
               Chat.now := Chat.now (app w) |} |}.

(** The system message that the [query:error] listener builds at clock
    reading [t]. *)
Definition error_message (t : Z) (data : Payload) : Chat.Message :=
  {| Chat.id := (t + 1)%Z; Chat.role := Chat.system;
     Chat.content := "Error: " +:+ Chat.data_message data;
     Chat.timestamp := t; Chat.isStreaming := None; Chat.documentContext := None;
     Chat.cost := None; Chat.tokens := None; Chat.cached := None; Chat.citations := None |}.

(** The assistant message that the [query:answer_complete] listener builds
    at clock reading [t] from the text [answer]. *)
Definition assistant_message (t : Z) (answer : string) (d : AnswerCompleteEvent) : Chat.Message :=
  {| Chat.id := (t + 1)%Z; Chat.role := Chat.assistant; Chat.content := answer;
     Chat.timestamp := t; Chat.isStreaming := None; Chat.documentContext := None;
     Chat.cost := cost d; Chat.tokens := tokens_used d;
     Chat.cached := cached d; Chat.citations := citations d |}.

(** The updates that the [query:answer_complete] listener queues. *)
Definition completion_updates (m : Chat.Message) : list Chat.Update :=
  [ Chat.SetIsStreamingAnswer false; Chat.AppendMessage m; Chat.SetIsLoading false;
    Chat.SetCurrentQuestionId None; Chat.SetStreamedThinking EmptyString;
    Chat.SetStreamedNodes []; Chat.SetStreamedAnswer EmptyString ].

(** Two systems with the same listeners, the same rendered state and the
    same render count, the second with a socket if the first has one. *)
Definition same_wiring (sys sys' : Chat.System) : Prop :=
  listeners (mgr sys') = listeners (mgr sys)
  ∧ (socket (mgr sys) ≠ None → socket (mgr sys') ≠ None)
  ∧ Chat.shown sys' = Chat.shown sys
  ∧ Chat.renders (Chat.chat (app (world sys'))) = Chat.renders (Chat.chat (app (world sys))).

(** Every pair of [regs] is registered, and is the only listener of its
    event. *)
Fixpoint sole_listeners (regs : list (string * Chat.Handler)) (m : Chat.Manager) : Prop :=
  match regs with
  | [] => True
  | (event, h) :: rest => listeners m !! event = Some [h] ∧ sole_listeners rest m
  end.

(** The component is mounted and the manager has a socket: each query
    event has exactly the listener that the effect of the last render
    registered for it. *)
Definition wired (sys : Chat.System) : Prop :=
  socket (mgr sys) ≠ None
  ∧ sole_listeners
      (Chat.registrations (Chat.renders (Chat.chat (app (world sys))))
         (Chat.streamedAnswer (Chat.shown sys)))
      (mgr sys).

End Observe.

(** ** Concrete runs used below *)

Module Scenario.

Import WebSocket Chat Observe.

Definition q1 : QueryStartedEvent := {| qs_question := "q1"; qs_conversation_id := 1 |}.

Definition done_event : AnswerCompleteEvent :=
  {| WebSocket.cost := Some 0.25%float; tokens_used := Some 120%Z;
     WebSocket.cached := Some false; WebSocket.citations := Some [] |}.

(** Two answer chunks, a render after the first only, and the completion
    event right after the second. *)
Definition half_answer : list Step :=
  [ query_started q1;
    answer_stream "The ";
    Render;
    answer_stream "answer.";
    answer_complete done_event;
    Render ].

(** A question that has run to completion and has been rendered. *)
Definition completed_question : list Step :=
  [ query_started q1;
    thinking_stream "Look";
    answer_stream "The answer.";
    Render;
    answer_complete done_event;
    Render ].



Definition request : QueryRequest :=
  {| question := "What is on page 3?"; document_id := 7; conversation_id := 42;
     use_cache := Some true; include_citations := Some true |}.

(** A document that is being processed, at 40 percent, and one that has
    been indexed. *)
Definition doc_in_progress : Documents.Document :=
  {| Documents.id := 1; Documents.name := "a.pdf"; Documents.size := 1000;
     Documents.uploadDate := 0; Documents.doc_status := Documents.processing;
     Documents.pageCount := Some 10%float; Documents.treeGenerated := Some false;
     Documents.doc_progress := Some 40%float |}.

Definition doc_indexed : Documents.Document :=
  {| Documents.id := 2; Documents.name := "b.pdf"; Documents.size := 2000;
     Documents.uploadDate := 0; Documents.doc_status := Documents.indexed;
     Documents.pageCount := Some 12%float; Documents.treeGenerated := Some true;
     Documents.doc_progress := None |}.

Definition panel : Documents.Panel :=
  {| Documents.documents := [doc_in_progress; doc_indexed];
     Documents.generatingTreeFor := {[ 1%Z ]};
     Documents.toasts := [];
     Documents.console := [] |}.

(** An event for job [jobId] that carries a status and nothing else. *)
Definition bare_event (jobId : Z) (s : Documents.DocumentStatus) : Documents.DocumentUpdateEvent :=
  {| Documents.doc_id := jobId; Documents.status := s; Documents.message := None;
     Documents.num_pages := None; Documents.progress := None |}.

Definition bare_tree_event (jobId : Z) : Documents.TreeGenerationEvent :=
  {| Documents.t_doc_id := jobId; Documents.tree_id := None;
     Documents.t_status := Documents.tree_processing; Documents.t_message := None;
     Documents.t_progress := None; Documents.num_nodes := None;
     Documents.t_num_pages := None |}.

End Scenario.

(** ** Further observations *)

Module Cover.

Import WebSocket.

(** [w'] is [w] after some listeners have run: more updates in the queue,
    the rendered state, the render count and the clock as before. *)
Definition queued (w w' : Chat.World) : Prop :=
  Chat.committed (Chat.chat (app w')) = Chat.committed (Chat.chat (app w))
  ∧ Chat.renders (Chat.chat (app w')) = Chat.renders (Chat.chat (app w))
  ∧ Chat.now (app w') = Chat.now (app w)
  ∧ ∃ us, Chat.pending (Chat.chat (app w')) = Chat.pending (Chat.chat (app w)) ++ us.

(** The job a socket event of the documents panel is about. *)
Definition target (ev : Documents.SocketEvent) : option Z :=
  match ev with
  | Documents.connect_error => None
  | Documents.document_update e | Documents.document_processing e
  | Documents.document_indexed e | Documents.document_error e => Some (Documents.doc_id e)
  | Documents.tree_started_event e | Documents.tree_progress_event e
  | Documents.tree_completed_event e | Documents.tree_error_event e =>
      Some (Documents.t_doc_id e)
  end.

(** The [progress] field a socket event carries. *)
Definition carried_progress (ev : Documents.SocketEvent) : option float :=
  match ev with
  | Documents.connect_error => None
  | Documents.document_update e | Documents.document_processing e
  | Documents.document_indexed e | Documents.document_error e => Documents.progress e
  | Documents.tree_started_event e | Documents.tree_progress_event e
  | Documents.tree_completed_event e | Documents.tree_error_event e =>
      Documents.t_progress e
  end.

(** The job whose tree generation a socket event reports as over. *)
Definition finished (ev : Documents.SocketEvent) : option Z :=
  match ev with
  | Documents.tree_completed_event e | Documents.tree_error_event e =>
      Some (Documents.t_doc_id e)
  | _ => None
  end.

(** The fields of a document that identify it. *)
Definition identity (doc : Documents.Document) : Z * string * Z * Z :=
  (Documents.id doc, Documents.name doc, Documents.size doc, Documents.uploadDate doc).

End Cover.

(** ** The documents panel: deleting a document *)

Module DocumentActions.

Import Documents.

(** The delete dialog: [deleteDialogOpen] and [documentToDelete]. *)
Record Dialog := {
  deleteDialogOpen : bool;
  documentToDelete : option Document }.

(** How the awaited API call settles; a rejection carries [error.message]. *)
Inductive ApiResult :=
| resolved
| rejected (message : option string).

Definition handleDeleteClick (doc : Document) (d : Dialog) : Dialog :=
  {| deleteDialogOpen := true; documentToDelete := Some doc |}.

(** [handleDeleteConfirm], from the call to the end of its continuation.
    [closure] is the [documentToDelete] of the render the function was
    created in; the dialog and the panel are those the continuation finds
    when [documentsApi.delete] has settled with [r]. *)
Definition handleDeleteConfirm (closure : option Document) (r : ApiResult)
    (st : Dialog * Panel) : Dialog * Panel :=
  match closure with
  | None => st
  | Some doc =>
      match r with
      | resolved =>
          ({| deleteDialogOpen := false; documentToDelete := None |},
           toast toast_success (Text "Document deleted successfully") None
             (setDocuments (filter (λ doc', id doc' ≠ id doc)) (snd st)))
      | rejected m =>
          (fst st,
           toast toast_error (message_or m (Text "Failed to delete document")) None
             (console_error "Error deleting document:" (snd st)))
      end
  end.

End DocumentActions.

(** * Properties *)

(** ** The dispatcher *)

Section DispatcherFacts.

Import Js WebSocket Observe.

Context {Handler : Type} `{EqDecision Handler} {App : Type}.
Variable call : Handler -> Payload -> Js.M (World App) unit.

Abbreviation System := (@System Handler App).

Lemma forEach_handlers hs event data (w : World App) :
  map inv_handler (snd (forEach call hs event data w)) = hs.
Proof.
  revert w. induction hs as [|h hs IH]; intros w; simpl; [done|].
  specialize (IH (state_of (invoke call event data h w))).
  destruct (forEach call hs event data _) as [w2 log]. simpl in *. by rewrite IH.
Qed.

Lemma forEach_world hs event data (w : World App) :
  fst (forEach call hs event data w)
  = fold_left (λ w h, state_of (invoke call event data h w)) hs w.
Proof.
  revert w. induction hs as [|h hs IH]; intros w; simpl; [done|].
  specialize (IH (state_of (invoke call event data h w))).
  by destruct (forEach call hs event data _) as [w2 log].
Qed.

Lemma invoke_catches event data h (w : World App) :
  invoke call event data h w
  = Normal tt
      match call h data w with
      | Normal _ w' => w'
      | Thrown err w' =>
          console_error ("Error in event handler for " +:+ event +:+ ":") (ArgError err) w'
      end.
Proof.
  unfold invoke, try_catch. destruct (call h data w) as [[] w'|err w']; done.
Qed.

Lemma emit_world event data (sys : System) :
  world (state_of (emit call event data sys))
  = fold_left (λ w h, state_of (invoke call event data h w))
      (handlers_of (mgr sys) event) (world sys).
Proof.
  unfold emit, emit_run. simpl. rewrite <- forEach_world.
  by destruct (forEach call _ event data _).
Qed.

Lemma emit_frame event data (sys : System) :
  mgr (state_of (emit call event data sys)) = mgr sys
  ∧ published (state_of (emit call event data sys)) = published sys ++ [(event, data)]
  ∧ channel (state_of (emit call event data sys)) = channel sys.
Proof. unfold emit, emit_run. simpl. by destruct (forEach call _ event data _). Qed.

Lemma emit_normal event data (sys : System) :
  emit call event data sys = Normal tt (state_of (emit call event data sys)).
Proof. done. Qed.

(** C6.  [emit] isolates its handlers.  Let [hs] be the handlers registered
    for an event, as the listener map holds them.  Whatever they do, and
    whichever of them throw: [emit] completes normally; it invokes every
    handler of [hs], once each and in registration order; an invocation
    that throws is caught and logged with [console.error], and the next
    handler runs in the state the thrower left behind. *)
Theorem emit_delivers_to_every_handler event data (sys : System) hs :
  listeners (mgr sys) !! event = Some hs →
  emit call event data sys = Normal tt (fst (emit_run call event data sys))
  ∧ map inv_handler (snd (emit_run call event data sys)) = hs
  ∧ world (fst (emit_run call event data sys))
    = fold_left (λ w h, state_of (invoke call event data h w)) hs (world sys)
  ∧ ∀ h w,
      invoke call event data h w
      = Normal tt
          match call h data w with
          | Normal _ w' => w'
          | Thrown err w' =>
              console_error ("Error in event handler for " +:+ event +:+ ":") (ArgError err) w'
          end.
Proof.
  intros Hl. split; [done|]. split; [|split].
  - unfold emit_run, handlers_of. rewrite Hl. change (default [] (Some hs)) with hs.
    pose proof (forEach_handlers hs event data (world sys)) as Hh.
    by destruct (forEach call hs event data _).
  - pose proof (emit_world event data sys) as Hw. unfold handlers_of in Hw.
    rewrite Hl in Hw. exact Hw.
  - intros h w. apply invoke_catches.
Qed.

End DispatcherFacts.

(** ** The transport connection *)

Section ManagerFacts.

Import Js WebSocket Observe.

Context {Handler : Type} `{EqDecision Handler} {App : Type}.
Variable call : Handler -> Payload -> Js.M (World App) unit.

Abbreviation Sys := (@System Handler App).

(** One failed attempt: the counter goes up by one, and the terminal status
    is published when the counter has reached the cap. *)
Lemma fire_connect_error msg (sys : Sys) :
  socket (mgr sys) ≠ None →
  let sys' := state_of (fire call (In_connect_error msg) sys) in
  socket (mgr sys') = socket (mgr sys)
  ∧ listeners (mgr sys') = listeners (mgr sys)
  ∧ reconnectAttempts (mgr sys') = (reconnectAttempts (mgr sys) + 1)%Z
  ∧ published sys'
    = published sys
      ++ (if (maxReconnectAttempts <=? reconnectAttempts (mgr sys) + 1)%Z
          then [terminal_status] else [])
  ∧ channel sys' = channel sys.
Proof.
  intros Hsock. unfold fire. destruct (socket (mgr sys)) as [s|] eqn:Hs; [|done].
  cbn -[emit Z.add Z.leb maxReconnectAttempts].
  unfold mbind, js_bind, bind, log_error, modify, gets.
  cbn -[emit Z.add Z.leb maxReconnectAttempts].
  destruct (maxReconnectAttempts <=? reconnectAttempts (mgr sys) + 1)%Z.
  - match goal with |- context [emit call ?e ?d ?s] =>
      destruct (emit_frame call e d s) as (Hm & Hp & Hc) end.
    rewrite Hm, Hp, Hc. cbn. rewrite Hs. done.
  - cbn. rewrite Hs, app_nil_r. done.
Qed.







End ManagerFacts.

(** ** The streaming query tracker *)

Section ChatFacts.

Import Js WebSocket Chat Observe Scenario.

Lemma append_assoc (a b c : string) : (a +:+ b) +:+ c = a +:+ (b +:+ c).
Proof.
  induction a as [|x a IH]; [done|].
  change (String x ((a +:+ b) +:+ c) = String x (a +:+ (b +:+ c))). by f_equal.
Qed.

Lemma append_nil_r (a : string) : a +:+ EmptyString = a.
Proof.
  induction a as [|x a IH]; [done|].
  change (String x (a +:+ EmptyString) = String x a). by f_equal.
Qed.

Lemma join_app (l1 l2 : list string) : join (l1 ++ l2) = join l1 +:+ join l2.
Proof.
  induction l1 as [|c l1 IH]; [done|].
  change (c +:+ join (l1 ++ l2) = (c +:+ join l1) +:+ join l2).
  by rewrite IH, append_assoc.
Qed.

(** *** Listener sets *)

Lemma set_add_nil (h : Handler) : set_add h [] = [h].
Proof. unfold set_add. case_decide as Hin; [|done]. by apply elem_of_nil in Hin. Qed.

Lemma set_delete_single (h : Handler) : set_delete h [h] = [].
Proof.
  unfold set_delete. rewrite filter_cons. case_decide; [done|]. by rewrite filter_nil.
Qed.

Lemma lookup_on_eq event h (m : Manager) :
  listeners (on event h m) !! event = Some (set_add h (default [] (listeners m !! event))).
Proof.
  unfold on. cbn. rewrite lookup_alter_eq.
  destruct (listeners m !! event) as [hs|] eqn:Hl; cbn.
  - by rewrite Hl.
  - by rewrite lookup_insert_eq.
Qed.

Lemma lookup_on_ne event h (m : Manager) event' :
  event ≠ event' → listeners (on event h m) !! event' = listeners m !! event'.
Proof.
  intros He. unfold on. cbn. rewrite lookup_alter_ne by done.
  destruct (listeners m !! event); [done|]. by rewrite lookup_insert_ne.
Qed.

Lemma lookup_off_eq event h (m : Manager) :
  listeners (off event h m) !! event = set_delete h <$> listeners m !! event.
Proof. unfold off. cbn. by rewrite lookup_alter_eq. Qed.

Lemma lookup_off_ne event h (m : Manager) event' :
  event ≠ event' → listeners (off event h m) !! event' = listeners m !! event'.
Proof. intros He. unfold off. cbn. by rewrite lookup_alter_ne. Qed.

Ltac lookup_listeners :=
  repeat first
    [ rewrite lookup_on_eq
    | rewrite lookup_off_eq
    | rewrite lookup_on_ne by discriminate
    | rewrite lookup_off_ne by discriminate ].

Lemma socket_on event h (m : Manager) : socket (on event h m) = socket m.
Proof. done. Qed.

Lemma socket_off event h (m : Manager) : socket (off event h m) = socket m.
Proof. done. Qed.

(** After a render the listeners are the closures of that render. *)
Lemma effect_rerun r a a' (m : Manager) :
  sole_listeners (registrations r a) m →
  sole_listeners (registrations (S r) a') (effect_setup (S r) a' (effect_cleanup r a m))
  ∧ socket (effect_setup (S r) a' (effect_cleanup r a m)) = socket m.
Proof.
  intros (H1 & H2 & H3 & H4 & H5 & H6 & H7 & _).
  unfold effect_setup, effect_cleanup, registrations. cbn [fold_left].
  split; [|done].
  cbn [sole_listeners].
  lookup_listeners.
  rewrite H1, H2, H3, H4, H5, H6, H7. cbn [fmap option_fmap option_map default].
  rewrite !set_delete_single, !set_add_nil. done.
Qed.

Lemma mount_wired t : wired (mount t).
Proof. split; [done|]. vm_compute. done. Qed.


(** *** What each listener does *)

Lemma setThinkingProcess_unbound : "setThinkingProcess" ∉ scope.
Proof.
  apply (bool_decide_eq_false_1 ("setThinkingProcess" ∈ scope)). vm_compute. reflexivity.
Qed.

Lemma resolve_setThinkingProcess :
  resolve "setThinkingProcess" = throw (ReferenceError "setThinkingProcess").
Proof.
  unfold resolve. case_decide as Hin; [|done].
  by destruct setThinkingProcess_unbound.
Qed.

Ltac js_run :=
  unfold call, mbind, js_bind, bind, mret, js_ret, ret, setState, toast, Chat.console_error,
    Date_now, modify, gets, throw, queue, add_toast, WebSocket.console_error;
  cbn.

Lemma call_handleThinkingStream r data (w : World) :
  call (handleThinkingStream r) data w
  = Normal tt (queue [AppendStreamedThinking (data_chunk data)] w).
Proof. done. Qed.

Lemma call_handleNodes r data (w : World) :
  call (handleNodes r) data w = Normal tt (queue [SetStreamedNodes (data_node_list data)] w).
Proof. done. Qed.

Lemma call_handleAnswerStream r data (w : World) :
  call (handleAnswerStream r) data w
  = Normal tt (queue [SetIsStreamingAnswer true; AppendStreamedAnswer (data_chunk data)] w).
Proof. js_run. by rewrite <- app_assoc. Qed.

Lemma call_handleQueryStarted r data (w : World) :
  call (handleQueryStarted r) data w
  = Normal tt
      (queue [ SetStreamedThinking EmptyString; SetStreamedNodes [];
               SetStreamedAnswer EmptyString ] w).
Proof. js_run. by rewrite <- !app_assoc. Qed.

Lemma call_handleQueryCompleted r data (w : World) :
  call (handleQueryCompleted r) data w = Normal tt (queue [SetIsLoading false] w).
Proof. done. Qed.

Lemma call_handleAnswerComplete r a data (w : World) :
  let d := data_answer data in
  let w' := queue (completion_updates (assistant_message (now (app w)) a d)) w in
  call (handleAnswerComplete r a) data w
  = if default false (WebSocket.cached d) then Normal tt (add_toast toast_success_cached w')
    else match WebSocket.cost d with
         | Some c => Normal tt (add_toast (toast_success_completed (tokens_used d) c) w')
         | None =>
             Thrown (TypeError "Cannot read properties of undefined (reading 'toFixed')") w'
         end.
Proof.
  unfold completion_updates, assistant_message. js_run.
  rewrite <- !app_assoc. cbn.
  destruct (WebSocket.cached (data_answer data)) as [[]|]; cbn; try done;
    destruct (WebSocket.cost (data_answer data)); done.
Qed.

Lemma call_handleQueryError r data (w : World) :
  call (handleQueryError r) data w
  = Thrown (ReferenceError "setThinkingProcess")
      (queue [ AppendMessage (error_message (now (app w)) data);
               SetIsLoading false; SetCurrentQuestionId None ]
         (WebSocket.console_error "Query error:" (ArgPayload data) w)).
Proof.
  unfold call. rewrite resolve_setThinkingProcess.
  unfold error_message. js_run. by rewrite <- !app_assoc.
Qed.

(** *** Listeners leave the wiring alone *)

Lemma call_frame h data (w : World) :
  committed (chat (app (state_of (call h data w)))) = committed (chat (app w))
  ∧ renders (chat (app (state_of (call h data w)))) = renders (chat (app w)).
Proof.
  destruct h.
  - destruct data; done.
  - done.
  - done.
  - by rewrite call_handleAnswerStream.
  - rewrite call_handleAnswerComplete. cbn zeta.
    destruct (default false _); [done|]. by destruct (WebSocket.cost _).
  - by rewrite call_handleQueryError.
  - by rewrite call_handleQueryStarted.
  - done.
Qed.

Lemma invoke_frame event h data (w : World) :
  committed (chat (app (state_of (invoke call event data h w)))) = committed (chat (app w))
  ∧ renders (chat (app (state_of (invoke call event data h w)))) = renders (chat (app w)).
Proof.
  rewrite invoke_catches. cbn [state_of].
  destruct (call_frame h data w) as [Hc Hr].
  destruct (call h data w); done.
Qed.

Lemma forEach_frame event data hs (w : World) :
  let w' := fold_left (λ w h, state_of (invoke call event data h w)) hs w in
  committed (chat (app w')) = committed (chat (app w))
  ∧ renders (chat (app w')) = renders (chat (app w)).
Proof.
  revert w. induction hs as [|h hs IH]; intros w; [done|]. cbn [fold_left].
  destruct (IH (state_of (invoke call event data h w))) as [Hc Hr].
  destruct (invoke_frame event h data w) as [Hc' Hr'].
  cbn zeta in *. by rewrite Hc, Hr, Hc', Hr'.
Qed.

Lemma same_wiring_refl (sys : System) : same_wiring sys sys.
Proof. done. Qed.

Lemma same_wiring_trans (s1 s2 s3 : System) :
  same_wiring s1 s2 → same_wiring s2 s3 → same_wiring s1 s3.
Proof.
  intros (A1 & A2 & A3 & A4) (B1 & B2 & B3 & B4).
  split_and!; [congruence | auto | congruence | congruence].
Qed.

Lemma emit_same_wiring event data (sys : System) :
  same_wiring sys (state_of (emit call event data sys)).
Proof.
  destruct (emit_frame call event data sys) as (Hm & _ & _).
  pose proof (emit_world call event data sys) as Hw.
  destruct (forEach_frame event data (handlers_of (mgr sys) event) (world sys)) as [Hc Hr].
  cbn zeta in *. unfold same_wiring, shown.
  rewrite Hm, Hw, Hc, Hr. done.
Qed.

Lemma fire_same_wiring ev (sys : System) :
  same_wiring sys (state_of (fire call ev sys)).
Proof.
  unfold fire. destruct (socket (mgr sys)) as [s|] eqn:Hs; [|done].
  destruct ev as [|reason|msg|name data]; unfold setupEventHandlers.
  - unfold mbind, js_bind, bind, modify. cbn -[emit].
    eapply same_wiring_trans; [|apply emit_same_wiring].
    unfold same_wiring. cbn. by rewrite Hs.
  - unfold mbind, js_bind, bind, modify. cbn -[emit].
    eapply same_wiring_trans; [|apply emit_same_wiring].
    unfold same_wiring. cbn. by rewrite Hs.
  - unfold mbind, js_bind, bind, modify, log_error, gets. cbn -[emit Z.leb Z.add].
    destruct (_ <=? _)%Z; cbn -[emit].
    + eapply same_wiring_trans; [|apply emit_same_wiring]. done.
    + done.
  - destruct (registration name forwarded) as [[local [label|]]|]; [| |done].
    + unfold mbind, js_bind, bind, modify, log_error. cbn -[emit].
      eapply same_wiring_trans; [|apply emit_same_wiring]. done.
    + apply emit_same_wiring.
Qed.

Lemma wired_same_wiring (sys sys' : System) :
  wired sys → same_wiring sys sys' → wired sys'.
Proof.
  intros [Hs Hl] (A1 & A2 & A3 & A4). split; [auto|].
  rewrite A3, A4.
  revert Hl. generalize (registrations (renders (chat (app (world sys))))
                           (streamedAnswer (shown sys))).
  intros regs. induction regs as [|[event h] regs IH]; [done|].
  cbn. rewrite A1. intros [? ?]. auto.
Qed.

Lemma render_wired (sys : System) : wired sys → wired (render sys).
Proof.
  intros [Hs Hl]. unfold shown in Hl.
  destruct (effect_rerun _ _ (streamedAnswer (flush (chat (app (world sys))))) _ Hl)
    as [Hl' Hs'].
  split.
  - unfold render. cbn [mgr]. by rewrite Hs'.
  - exact Hl'.
Qed.

(** Every task but a disconnect keeps a mounted component wired. *)
Lemma step_wired (sys : System) (s : Step) :
  s ≠ Disconnect → wired sys → wired (step sys s).
Proof.
  intros Hd Hw. destruct s as [ev| |req| | |t]; cbn [step]; try done.
  - eapply wired_same_wiring; [done|apply fire_same_wiring].
  - by apply render_wired.
  - eapply wired_same_wiring; [done|].
    unfold sendQuery. destruct (negb _); [|done].
    unfold mbind, js_bind, bind, modify, log_error. cbn -[emit].
    eapply same_wiring_trans; [|apply emit_same_wiring]. done.
  - eapply wired_same_wiring; [done|].
    unfold connect. destruct (_ || _); [done|]. done.
Qed.

(** *** One event at a time *)

Lemma flush_queue us (w : World) :
  flush (chat (app (queue us w))) = fold_left apply_update us (flush (chat (app w))).
Proof. unfold flush, queue. cbn. apply fold_left_app. Qed.


Lemma shown_render (sys : System) : shown (render sys) = live sys.
Proof. done. Qed.

Lemma emit_sole event data h (sys : System) :
  listeners (mgr sys) !! event = Some [h] →
  world (state_of (emit call event data sys)) = state_of (invoke call event data h (world sys)).
Proof.
  intros Hl. rewrite emit_world. unfold handlers_of. by rewrite Hl.
Qed.

Lemma deliver_forwarded name data h (sys : System) :
  socket (mgr sys) ≠ None →
  registration name forwarded = Some (name, None) →
  listeners (mgr sys) !! name = Some [h] →
  world (step sys (Deliver (In_event name data)))
  = state_of (invoke call name data h (world sys)).
Proof.
  intros Hs Hr Hl. cbn [step]. unfold fire.
  destruct (socket (mgr sys)); [|done].
  unfold setupEventHandlers. rewrite Hr. by apply emit_sole.
Qed.

Lemma world_thinking_stream chunk (sys : System) :
  wired sys →
  world (step sys (thinking_stream chunk)) = queue [AppendStreamedThinking chunk] (world sys).
Proof.
  intros (Hs & H1 & _). unfold thinking_stream.
  erewrite deliver_forwarded; [|done|done|exact H1].
  by rewrite invoke_catches, call_handleThinkingStream.
Qed.

Lemma world_nodes node_list (sys : System) :
  wired sys →
  world (step sys (nodes node_list)) = queue [SetStreamedNodes node_list] (world sys).
Proof.
  intros (Hs & _ & H2 & _). unfold nodes.
  erewrite deliver_forwarded; [|done|done|exact H2].
  by rewrite invoke_catches, call_handleNodes.
Qed.

Lemma world_answer_stream chunk (sys : System) :
  wired sys →
  world (step sys (answer_stream chunk))
  = queue [SetIsStreamingAnswer true; AppendStreamedAnswer chunk] (world sys).
Proof.
  intros (Hs & _ & _ & H3 & _). unfold answer_stream.
  erewrite deliver_forwarded; [|done|done|exact H3].
  by rewrite invoke_catches, call_handleAnswerStream.
Qed.

Lemma world_query_started e (sys : System) :
  wired sys →
  world (step sys (query_started e))
  = queue [ SetStreamedThinking EmptyString; SetStreamedNodes [];
            SetStreamedAnswer EmptyString ] (world sys).
Proof.
  intros (Hs & _ & _ & _ & _ & _ & H6 & _). unfold query_started.
  erewrite deliver_forwarded; [|done|done|exact H6].
  by rewrite invoke_catches, call_handleQueryStarted.
Qed.

(** The completion listener builds its message from the [streamedAnswer]
    of the last render. *)
Lemma chat_answer_complete e (sys : System) :
  wired sys →
  chat (app (world (step sys (answer_complete e))))
  = chat (app (queue (completion_updates
                        (assistant_message (now (app (world sys)))
                           (streamedAnswer (shown sys)) e))
                 (world sys))).
Proof.
  intros (Hs & _ & _ & _ & H4 & _). unfold answer_complete.
  erewrite deliver_forwarded; [|done|done|exact H4].
  rewrite invoke_catches, call_handleAnswerComplete. cbn zeta. cbn [data_answer].
  destruct (default false _); [done|]. by destruct (WebSocket.cost e).
Qed.

Lemma world_query_error e (sys : System) :
  wired sys →
  world (step sys (query_error e))
  = WebSocket.console_error "Error in event handler for query:error:"
      (ArgError (ReferenceError "setThinkingProcess"))
      (queue [ AppendMessage (error_message (now (app (world sys))) (PQueryError e));
               SetIsLoading false; SetCurrentQuestionId None ]
         (WebSocket.console_error "Query error:" (ArgPayload (PQueryError e))
            (WebSocket.console_error "Query: Error -" (ArgString (message e)) (world sys)))).
Proof.
  intros (Hs & _ & _ & _ & _ & H5 & _). unfold query_error. cbn [step]. unfold fire.
  destruct (socket (mgr sys)); [|done].
  unfold setupEventHandlers.
  change (registration "query:error" forwarded) with (Some ("query:error", Some "Query: Error -")).
  unfold mbind, js_bind, bind, log_error, modify. cbn -[emit].
  rewrite emit_sole with (h := handleQueryError (renders (chat (app (world sys))))); [|exact H5].
  by rewrite invoke_catches, call_handleQueryError.
Qed.

Lemma stream_step_wired ev (sys : System) : wired sys → wired (step sys (stream_step ev)).
Proof. intros Hw. apply step_wired; [|done]. by destruct ev. Qed.

Lemma stream_wired evs (sys : System) : wired sys → wired (run (map stream_step evs) sys).
Proof.
  revert sys. induction evs as [|ev evs IH]; intros sys Hw; [done|].
  cbn. apply IH. by apply stream_step_wired.
Qed.

(** So every state the mounted component reaches without a disconnect is
    wired. *)
Lemma run_wired tr (sys : System) :
  Forall (λ s, s ≠ Disconnect) tr → wired sys → wired (run tr sys).
Proof.
  revert sys. induction tr as [|s tr IH]; intros sys Htr Hw; [done|].
  inversion Htr as [|? ? Hs Htr']; subst. cbn. apply IH; [done|]. by apply step_wired.
Qed.

Lemma live_stream_step ev (sys : System) :
  wired sys →
  live (step sys (stream_step ev))
  = match ev with
    | Thinking chunk => apply_update (live sys) (AppendStreamedThinking chunk)
    | Nodes node_list => apply_update (live sys) (SetStreamedNodes node_list)
    | Answer chunk =>
        apply_update (apply_update (live sys) (SetIsStreamingAnswer true))
          (AppendStreamedAnswer chunk)
    | Rendered => live sys
    end.
Proof.
  intros Hw. destruct ev as [chunk|node_list|chunk|]; cbn [stream_step]; unfold live.
  - by rewrite world_thinking_stream, flush_queue.
  - by rewrite world_nodes, flush_queue.
  - by rewrite world_answer_stream, flush_queue.
  - done.
Qed.

(** *** Accumulation *)

Lemma thinking_appended evs (sys : System) :
  wired sys →
  streamedThinking (live (run (map stream_step evs) sys))
  = streamedThinking (live sys) +:+ join (thinking_chunks evs).
Proof.
  revert sys. induction evs as [|ev evs IH]; intros sys Hw.
  - cbn. by rewrite append_nil_r.
  - cbn [map run fold_left]. fold (run (map stream_step evs) (step sys (stream_step ev))).
    rewrite IH by (by apply stream_step_wired). rewrite live_stream_step by done.
    destruct ev as [chunk|node_list|chunk|]; try done.
    change (thinking_chunks (Thinking chunk :: evs)) with (chunk :: thinking_chunks evs).
    cbn [apply_update streamedThinking join fold_right].
    fold (join (thinking_chunks evs)). apply append_assoc.
Qed.

(** C7.  The thinking text is the concatenation of the chunks.  For every
    stream of chunk and node events, with renders anywhere in between, the
    thinking text after the stream is the text before it followed by the
    [query:thinking_stream] chunks in arrival order; counted from the
    [query:started] event of the question, it is exactly [c1 + ... + cn]. *)
Theorem thinking_text_is_concatenation evs (sys : System) :
  wired sys →
  streamedThinking (live (run (map stream_step evs) sys))
  = streamedThinking (live sys) +:+ join (thinking_chunks evs)
  ∧ ∀ e, streamedThinking (live (run (query_started e :: map stream_step evs) sys))
         = join (thinking_chunks evs).
Proof.
  intros Hw. split; [by apply thinking_appended|].
  intros e. cbn [run fold_left]. fold (run (map stream_step evs) (step sys (query_started e))).
  rewrite thinking_appended by (by apply step_wired).
  unfold live at 1. by rewrite world_query_started, flush_queue.
Qed.

(** C8.  [query:nodes] is last-write-wins.  After any stream of chunk and
    node events, with renders anywhere in between, the selected nodes are
    the [node_list] of the last [query:nodes] event of the stream (and the
    list from before the stream if it has none). *)
Theorem nodes_last_write_wins evs (sys : System) :
  wired sys →
  streamedNodes (live (run (map stream_step evs) sys))
  = default (streamedNodes (live sys)) (last (node_lists evs)).
Proof.
  revert sys. induction evs as [|ev evs IH]; intros sys Hw; [done|].
  cbn [map run fold_left]. fold (run (map stream_step evs) (step sys (stream_step ev))).
  rewrite IH by (by apply stream_step_wired). rewrite live_stream_step by done.
  destruct ev as [chunk|node_list|chunk|]; try done.
  change (node_lists (Nodes node_list :: evs)) with (node_list :: node_lists evs).
  rewrite last_cons. by destruct (last (node_lists evs)).
Qed.

(** *** Completion *)

Lemma answer_complete_reads_closure e (sys : System) :
  wired sys →
  messages (live (step sys (answer_complete e)))
  = messages (live sys)
    ++ [assistant_message (now (app (world sys))) (streamedAnswer (shown sys)) e].
Proof.
  intros Hw. unfold live. by rewrite chat_answer_complete, flush_queue.
Qed.

(** A chunk that has not been rendered yet does not reach the answer
    record, whatever the chunk is. *)
Lemma completion_ignores_unrendered_chunk chunk e (sys : System) :
  wired sys →
  messages (live (run [answer_stream chunk; answer_complete e] sys))
  = messages (live sys)
    ++ [assistant_message (now (app (world sys))) (streamedAnswer (shown sys)) e].
Proof.
  intros Hw. cbn [run fold_left].
  assert (wired (step sys (answer_stream chunk))) as Hw' by (by apply step_wired).
  rewrite answer_complete_reads_closure by done.
  destruct (fire_same_wiring (In_event "query:answer_stream" (PChunk chunk)) sys)
    as (_ & _ & Hshown & _).
  change (state_of (fire call (In_event "query:answer_stream" (PChunk chunk)) sys))
    with (step sys (answer_stream chunk)) in Hshown.
  rewrite Hshown. unfold live at 1. rewrite !world_answer_stream by done.
  by rewrite flush_queue.
Qed.

(** C1, on the code.  The chunks ["The "] and ["answer."] arrive, a render
    happens after the first only, and [query:answer_complete] follows the
    second chunk at once: the answer record delivered to the consumer has
    the content ["The "], without the last chunk. *)
Theorem answer_complete_misses_last_chunk :
  content <$> last (messages (shown (run half_answer (mount 0)))) = Some "The "
  ∧ join ["The "; "answer."] = "The answer.".
Proof. split; vm_compute; reflexivity. Qed.

(** *** After the terminal event *)

Lemma renders_wired k (sys : System) : wired sys → wired (run (replicate k Render) sys).
Proof.
  revert sys. induction k as [|k IH]; intros sys Hw; [done|].
  cbn. apply IH. by apply render_wired.
Qed.

Lemma fire_returns ev (sys : System) : threw (fire call ev sys) = false.
Proof.
  unfold fire. destruct (socket (mgr sys)); [|done].
  destruct ev as [|reason|msg|name data]; unfold setupEventHandlers; try done.
  - unfold mbind, js_bind, bind, log_error, modify, gets. cbn -[emit Z.leb Z.add].
    by destruct (_ <=? _)%Z.
  - by destruct (registration name forwarded) as [[local [label|]]|].
Qed.

(** C2, as the code has it.  The listeners have no question id and no phase
    to look at.  In the state a question is left in by its terminal event
    ([query:answer_complete] or [query:error]), after any number of
    renders, a late event is applied like any other and nothing is raised:
    a [query:thinking_stream] or [query:answer_stream] chunk is appended to
    its accumulator, a [query:nodes] list replaces the selected nodes, a
    [query:answer_complete] clears the three accumulators and appends
    another assistant message; only a late [query:error] leaves the
    accumulators as they are. *)
Theorem late_events_are_applied (t : Terminal) (k : nat) (sys : System) :
  wired sys →
  let sysT := run (terminal_step t :: replicate k Render) sys in
  (∀ chunk, streamedThinking (live (step sysT (thinking_stream chunk)))
            = streamedThinking (live sysT) +:+ chunk)
  ∧ (∀ chunk, streamedAnswer (live (step sysT (answer_stream chunk)))
              = streamedAnswer (live sysT) +:+ chunk)
  ∧ (∀ node_list, streamedNodes (live (step sysT (nodes node_list))) = node_list)
  ∧ (∀ e, accumulators (live (step sysT (answer_complete e))) = (EmptyString, [], EmptyString)
          ∧ messages (live (step sysT (answer_complete e)))
            = messages (live sysT)
              ++ [assistant_message (now (app (world sysT))) (streamedAnswer (shown sysT)) e])
  ∧ (∀ e, accumulators (live (step sysT (query_error e))) = accumulators (live sysT))
  ∧ (∀ ev, threw (fire call ev sysT) = false).
Proof.
  intros Hw sysT.
  assert (wired sysT) as HT.
  { unfold sysT. cbn [run fold_left].
    fold (run (replicate k Render) (step sys (terminal_step t))).
    apply renders_wired, step_wired; [by destruct t|done]. }
  split_and!.
  - intros chunk. unfold live at 1. by rewrite world_thinking_stream, flush_queue.
  - intros chunk. unfold live at 1. by rewrite world_answer_stream, flush_queue.
  - intros node_list. unfold live at 1. by rewrite world_nodes, flush_queue.
  - intros e. split; [|by apply answer_complete_reads_closure].
    unfold live at 1. by rewrite chat_answer_complete, flush_queue.
  - intros e. unfold live at 1. rewrite world_query_error by done.
    unfold WebSocket.console_error at 1. cbn [app]. by rewrite flush_queue.
  - intros ev. apply fire_returns.
Qed.

(** *** The [query:error] listener *)


(** On the way through [emit] the exception is caught and logged, and the
    toasts are as before. *)
Lemma query_error_event_shows_no_toast e (sys : System) :
  wired sys →
  toasts (app (world (step sys (query_error e)))) = toasts (app (world sys))
  ∧ last (console (world (step sys (query_error e))))
    = Some (console_error_entry "Error in event handler for query:error:"
              (ArgError (ReferenceError "setThinkingProcess"))).
Proof.
  intros Hw. rewrite world_query_error by done. split; [done|].
  unfold WebSocket.console_error at 1. cbn [console]. apply last_snoc.
Qed.

End ChatFacts.

(** ** The job progress tracker *)

Section DocumentsFacts.

Import Documents Scenario.

Lemma documents_onDocumentUpdate event (p : Panel) :
  documents (onDocumentUpdate event p)
  = (λ doc, if (id doc =? doc_id event)%Z then document_updated event doc else doc)
    <$> documents p.
Proof. unfold onDocumentUpdate. by destruct (status event). Qed.

Lemma documents_onTreeGeneration event (p : Panel) :
  documents (onTreeGeneration event p)
  = (λ doc, if (id doc =? t_doc_id event)%Z then tree_updated event doc else doc)
    <$> documents p.
Proof. unfold onTreeGeneration. by destruct (t_status event). Qed.

Lemma updated_job event (p : Panel) i doc :
  documents p !! i = Some doc →
  doc_id event = id doc →
  documents (onDocumentUpdate event p) !! i = Some (document_updated event doc).
Proof.
  intros Hi He. rewrite documents_onDocumentUpdate, list_lookup_fmap, Hi. cbn.
  by rewrite He, Z.eqb_refl.
Qed.

Lemma tree_updated_job event (p : Panel) i doc :
  documents p !! i = Some doc →
  t_doc_id event = id doc →
  documents (onTreeGeneration event p) !! i = Some (tree_updated event doc).
Proof.
  intros Hi He. rewrite documents_onTreeGeneration, list_lookup_fmap, Hi. cbn.
  by rewrite He, Z.eqb_refl.
Qed.

Lemma other_job event (p : Panel) i doc :
  documents p !! i = Some doc →
  doc_id event ≠ id doc →
  documents (onDocumentUpdate event p) !! i = Some doc.
Proof.
  intros Hi He. rewrite documents_onDocumentUpdate, list_lookup_fmap, Hi. cbn.
  destruct (Z.eqb_spec (id doc) (doc_id event)); congruence.
Qed.

Lemma other_tree_job event (p : Panel) i doc :
  documents p !! i = Some doc →
  t_doc_id event ≠ id doc →
  documents (onTreeGeneration event p) !! i = Some doc.
Proof.
  intros Hi He. rewrite documents_onTreeGeneration, list_lookup_fmap, Hi. cbn.
  destruct (Z.eqb_spec (id doc) (t_doc_id event)); congruence.
Qed.

(** C4, as the code has it.  A job event is merged into the stored record
    of its job by copying the record: the fields that the callback does not
    assign keep their values ([id], [name], [size], [uploadDate]; also
    [treeGenerated] for a document update and [pageCount] for a tree
    event), and [pageCount] keeps its value under a document update without
    [num_pages].  [progress] is assigned from the event every time, so an
    event without [progress] leaves the stored progress undefined.  The
    records of other jobs are not touched. *)
Theorem job_event_merge (p : Panel) (i : nat) (doc : Document) :
  documents p !! i = Some doc →
  (∀ event, doc_id event = id doc →
     ∃ doc', documents (onDocumentUpdate event p) !! i = Some doc'
       ∧ id doc' = id doc ∧ name doc' = name doc ∧ size doc' = size doc
       ∧ uploadDate doc' = uploadDate doc
       ∧ treeGenerated doc' = treeGenerated doc
       ∧ pageCount doc' = Truthy.or_else Truthy.number (num_pages event) (pageCount doc)
       ∧ (num_pages event = None → pageCount doc' = pageCount doc)
       ∧ doc_progress doc' = progress event)
  ∧ (∀ event, t_doc_id event = id doc →
       ∃ doc', documents (onTreeGeneration event p) !! i = Some doc'
         ∧ id doc' = id doc ∧ name doc' = name doc ∧ size doc' = size doc
         ∧ uploadDate doc' = uploadDate doc
         ∧ pageCount doc' = pageCount doc
         ∧ doc_progress doc' = t_progress event)
  ∧ (∀ event, doc_id event ≠ id doc → documents (onDocumentUpdate event p) !! i = Some doc)
  ∧ (∀ event, t_doc_id event ≠ id doc → documents (onTreeGeneration event p) !! i = Some doc).
Proof.
  intros Hi. split_and!.
  - intros event He. exists (document_updated event doc).
    split; [by apply updated_job|]. cbn. split_and!; try done.
    by intros ->.
  - intros event He. exists (tree_updated event doc).
    split; [by apply tree_updated_job|]. done.
  - intros event He. by apply other_job.
  - intros event He. by apply other_tree_job.
Qed.

(** C5, as the code has it.  A tree-generation event never takes a stored
    status from a terminal value back to a non-terminal one: it leaves the
    status as it is unless it reports completion, which stores [indexed].
    A document update stores the status of the event whatever the stored
    status is, also [processing] over [indexed] or [error]. *)
Theorem status_after_job_event (p : Panel) (i : nat) (doc : Document) :
  documents p !! i = Some doc →
  (∀ event, t_doc_id event = id doc →
     ∃ doc', documents (onTreeGeneration event p) !! i = Some doc'
       ∧ doc_status doc' = match t_status event with
                           | tree_completed => indexed
                           | _ => doc_status doc
                           end
       ∧ (terminal (doc_status doc) = true → terminal (doc_status doc') = true))
  ∧ (∀ event, doc_id event = id doc →
       ∃ doc', documents (onDocumentUpdate event p) !! i = Some doc'
         ∧ doc_status doc' = status event).
Proof.
  intros Hi. split.
  - intros event He. exists (tree_updated event doc).
    split; [by apply tree_updated_job|]. cbn. split; [done|].
    by destruct (t_status event).
  - intros event He. exists (document_updated event doc).
    split; [by apply updated_job|]. done.
Qed.

End DocumentsFacts.

(** ** Concrete runs *)

Section Runs.

Import Js WebSocket Chat Observe Scenario.

(** C2, against the claim as stated.  A question has completed and the
    completion has been rendered (no current question, not loading, empty
    accumulators); a [query:thinking_stream] chunk that arrives afterwards
    changes the accumulation state, and the next render shows it. *)
Lemma late_chunk_is_not_ignored :
  let sysT := run completed_question (mount 0) in
  currentQuestionId (shown sysT) = None
  ∧ isLoading (shown sysT) = false
  ∧ accumulators (live sysT) = (EmptyString, [], EmptyString)
  ∧ accumulators (live (step sysT (thinking_stream "late"))) = ("late", [], EmptyString)
  ∧ accumulators (live (step sysT (thinking_stream "late"))) ≠ accumulators (live sysT)
  ∧ streamedThinking (shown (run [thinking_stream "late"; Render] sysT)) = "late".
Proof. cbn zeta. split_and!; try (vm_compute; reflexivity). vm_compute. discriminate. Qed.


(** C4, against the claim as stated.  The job of document 1 is at 40
    percent; a [document:update] for it that has a status and no [progress]
    field leaves the stored progress undefined. *)
Lemma progress_lost_without_progress_field :
  Documents.doc_progress <$> Documents.job 1 panel = Some (Some 40%float)
  ∧ Documents.doc_progress
      <$> Documents.job 1
            (Documents.socket_on
               (Documents.document_update (bare_event 1 Documents.processing)) panel)
    = Some None.
Proof. split; vm_compute; reflexivity. Qed.

(** C5, against the claim as stated.  Document 2 is indexed; a late
    [document:processing] event for it stores [processing].  The same
    happens to document 1 after a [document:error]. *)
Lemma status_regresses_after_terminal :
  Documents.doc_status <$> Documents.job 2 panel = Some Documents.indexed
  ∧ Documents.doc_status
      <$> Documents.job 2
            (Documents.socket_on
               (Documents.document_processing (bare_event 2 Documents.processing)) panel)
    = Some Documents.processing
  ∧ Documents.doc_status
      <$> Documents.job 1
            (Documents.deliver [Documents.document_error (bare_event 1 Documents.error)] panel)
    = Some Documents.error
  ∧ Documents.doc_status
      <$> Documents.job 1
            (Documents.deliver
               [ Documents.document_error (bare_event 1 Documents.error);
                 Documents.document_processing (bare_event 1 Documents.processing) ] panel)
    = Some Documents.processing.
Proof. split_and!; vm_compute; reflexivity. Qed.

(** A throwing listener and a sibling on the same event: the listener of
    [query:error] throws, and a second listener registered after it on the
    same event still runs. *)
Lemma sibling_runs_after_throwing_listener :
  let sys := with_mgr (on "query:error" (handleQueryCompleted 7)) (mount 0) in
  let data := PQueryError {| message := "boom"; qe_conversation_id := 42 |} in
  snd (emit_run call "query:error" data sys)
  = [ {| inv_handler := handleQueryError 0; inv_threw := true |};
      {| inv_handler := handleQueryCompleted 7; inv_threw := false |} ]
  ∧ pending (chat (app (world (fst (emit_run call "query:error" data sys)))))
    = [ AppendMessage (error_message 0 data); SetIsLoading false;
        SetCurrentQuestionId None; SetIsLoading false ].
Proof. split; vm_compute; reflexivity. Qed.

(** *** The general statements at work *)

Lemma emit_delivers_to_every_handler_witness :
  listeners (mgr (with_mgr (on "query:error" (handleQueryCompleted 7)) (mount 0)))
    !! "query:error"
  = Some [handleQueryError 0; handleQueryCompleted 7]
  ∧ map inv_handler
      (snd (emit_run call "query:error"
              (PQueryError {| message := "boom"; qe_conversation_id := 42 |})
              (with_mgr (on "query:error" (handleQueryCompleted 7)) (mount 0))))
    = [handleQueryError 0; handleQueryCompleted 7].
Proof.
  assert (listeners (mgr (with_mgr (on "query:error" (handleQueryCompleted 7)) (mount 0)))
            !! "query:error"
          = Some [handleQueryError 0; handleQueryCompleted 7]) as Hl
    by (vm_compute; reflexivity).
  split; [exact Hl|].
  exact (proj1 (proj2 (emit_delivers_to_every_handler call "query:error"
                         (PQueryError {| message := "boom"; qe_conversation_id := 42 |})
                         (with_mgr (on "query:error" (handleQueryCompleted 7)) (mount 0))
                         [handleQueryError 0; handleQueryCompleted 7] Hl))).
Defined.

Lemma late_events_are_applied_witness :
  wired (mount 0)
  ∧ streamedThinking
      (live (step (run (terminal_step (Completed done_event) :: replicate 1 Render) (mount 0))
               (thinking_stream "late")))
    = streamedThinking
        (live (run (terminal_step (Completed done_event) :: replicate 1 Render) (mount 0)))
      +:+ "late".
Proof.
  assert (wired (mount 0)) as Hw by (split; [done | vm_compute; done]).
  split; [exact Hw|].
  exact (proj1 (late_events_are_applied (Completed done_event) 1 (mount 0) Hw) "late").
Defined.



Lemma thinking_text_is_concatenation_witness :
  wired (mount 0)
  ∧ ∀ e,
      streamedThinking
        (live (run (query_started e
                    :: map stream_step
                         [Thinking "Look"; Rendered; Thinking "ing"; Nodes ["0001"; "0002"]])
                 (mount 0)))
      = "Looking".
Proof.
  assert (wired (mount 0)) as Hw by (split; [done | vm_compute; done]).
  split; [exact Hw|].
  exact (proj2 (thinking_text_is_concatenation
                  [Thinking "Look"; Rendered; Thinking "ing"; Nodes ["0001"; "0002"]]
                  (mount 0) Hw)).
Defined.

Lemma nodes_last_write_wins_witness :
  wired (mount 0)
  ∧ streamedNodes (live (run (map stream_step [Nodes ["a"; "b"]; Nodes ["c"]]) (mount 0)))
    = ["c"].
Proof.
  assert (wired (mount 0)) as Hw by (split; [done | vm_compute; done]).
  split; [exact Hw|].
  exact (nodes_last_write_wins [Nodes ["a"; "b"]; Nodes ["c"]] (mount 0) Hw).
Defined.

Lemma job_event_merge_witness :
  Documents.documents panel !! 0 = Some doc_in_progress
  ∧ ∃ doc',
      Documents.documents
        (Documents.onDocumentUpdate (bare_event 1 Documents.processing) panel) !! 0
      = Some doc'
      ∧ Documents.name doc' = "a.pdf"
      ∧ Documents.pageCount doc' = Some 10%float
      ∧ Documents.doc_progress doc' = None.
Proof.
  split; [reflexivity|].
  destruct (proj1 (job_event_merge panel 0 doc_in_progress eq_refl)
              (bare_event 1 Documents.processing) eq_refl)
    as (doc' & H1 & _ & H2 & _ & _ & _ & _ & H3 & H4).
  exists doc'. split_and!; [exact H1 | exact H2 | exact (H3 eq_refl) | exact H4].
Defined.

Lemma status_after_job_event_witness :
  Documents.documents panel !! 1 = Some doc_indexed
  ∧ (∃ doc',
       Documents.documents
         (Documents.onDocumentUpdate (bare_event 2 Documents.processing) panel) !! 1
       = Some doc'
       ∧ Documents.doc_status doc' = Documents.processing)
  ∧ (∃ doc',
       Documents.documents (Documents.onTreeGeneration (bare_tree_event 2) panel) !! 1
       = Some doc'
       ∧ Documents.doc_status doc' = Documents.indexed).
Proof.
  split; [reflexivity|].
  destruct (status_after_job_event panel 1 doc_indexed eq_refl) as [Ht Hd].
  split.
  - destruct (Hd (bare_event 2 Documents.processing) eq_refl) as (doc' & H1 & H2).
    exists doc'. split; assumption.
  - destruct (Ht (bare_tree_event 2) eq_refl) as (doc' & H1 & H2 & _).
    exists doc'. split; assumption.
Defined.

End Runs.

(** * Further properties of the code *)

(** ** Registration: [on] and [off] *)

Section ListenerFacts.

Import Js WebSocket.

Context {Handler : Type} `{EqDecision Handler} {App : Type}.
Variable call : Handler -> Payload -> Js.M (World App) unit.

Abbreviation Mgr := (@WebSocketManager Handler).

Lemma handlers_on event h (m : Mgr) event' :
  handlers_of (on event h m) event'
  = if decide (event = event') then set_add h (handlers_of m event) else handlers_of m event'.
Proof.
  unfold handlers_of, on. cbn. rewrite lookup_alter. case_decide as He; [subst event'|].
  - destruct (listeners m !! event) as [hs|] eqn:Hl; cbn.
    + by rewrite Hl.
    + by rewrite lookup_insert_eq.
  - destruct (listeners m !! event); [done|]. by rewrite lookup_insert_ne.
Qed.

Lemma handlers_off event h (m : Mgr) event' :
  handlers_of (off event h m) event'
  = if decide (event = event') then set_delete h (handlers_of m event) else handlers_of m event'.
Proof.
  unfold handlers_of, off. cbn. rewrite lookup_alter. case_decide as He; [subst event'|done].
  by destruct (listeners m !! event).
Qed.

Lemma set_add_elem (h : Handler) hs : h ∈ set_add h hs.
Proof. unfold set_add. case_decide; [done|]. apply elem_of_app. right. by apply list_elem_of_singleton. Qed.

Lemma set_add_present (h : Handler) hs : h ∈ hs → set_add h hs = hs.
Proof. intros Hin. unfold set_add. by case_decide. Qed.

Lemma set_add_fresh (h : Handler) hs : h ∉ hs → set_add h hs = hs ++ [h].
Proof. intros Hin. unfold set_add. by case_decide. Qed.

Lemma set_delete_absent (h : Handler) hs : h ∉ hs → set_delete h hs = hs.
Proof.
  intros Hin. unfold set_delete. induction hs as [|x hs IH]; [done|].
  rewrite filter_cons. apply not_elem_of_cons in Hin as [Hne Hin].
  case_decide; [|congruence]. by rewrite IH.
Qed.

Lemma set_delete_not_elem (h : Handler) hs : h ∉ set_delete h hs.
Proof. unfold set_delete. rewrite list_elem_of_filter. by intros [? _]. Qed.

Lemma set_delete_snoc (h : Handler) hs : h ∉ hs → set_delete h (hs ++ [h]) = hs.
Proof.
  intros Hin. unfold set_delete. rewrite filter_app. fold (set_delete h hs).
  rewrite set_delete_absent by done. rewrite filter_cons. case_decide; [done|].
  by rewrite filter_nil, app_nil_r.
Qed.

Lemma set_add_NoDup (h : Handler) hs : NoDup hs → NoDup (set_add h hs).
Proof.
  intros Hnd. unfold set_add. case_decide as Hin; [done|].
  apply NoDup_app. split_and!; [done| |apply NoDup_singleton].
  intros x Hx Hx'. apply list_elem_of_singleton in Hx'. by subst.
Qed.

Lemma set_delete_NoDup (h : Handler) hs : NoDup hs → NoDup (set_delete h hs).
Proof. intros Hnd. unfold set_delete. by apply NoDup_filter. Qed.

(** X1.  Registration has set semantics.  Registering a handler that is
    already registered for the event changes nothing, for any event; a
    handler that is new for the event is put after the ones already there;
    the handlers of every other event stay as they are. *)
Theorem on_is_idempotent_and_ordered event h (m : Mgr) :
  on event h (on event h m) = on event h m
  ∧ (h ∈ handlers_of m event → handlers_of (on event h m) event = handlers_of m event)
  ∧ (h ∉ handlers_of m event → handlers_of (on event h m) event = handlers_of m event ++ [h])
  ∧ (∀ event', event ≠ event' → handlers_of (on event h m) event' = handlers_of m event').
Proof.
  split_and!.
  - pose proof (handlers_on event h m event) as Hh. rewrite decide_True in Hh by done.
    unfold handlers_of in Hh.
    destruct (listeners (on event h m) !! event) as [hs|] eqn:Hl.
    + unfold on at 1. rewrite Hl. cbn in Hh. subst hs.
      rewrite alter_id; [by destruct (on event h m)|].
      intros x Hx. rewrite Hl in Hx. injection Hx as <-.
      apply set_add_present, set_add_elem.
    + exfalso. unfold on in Hl. cbn in Hl. rewrite lookup_alter_eq in Hl.
      destruct (listeners m !! event) eqn:Hm; cbn in Hl.
      * by rewrite Hm in Hl.
      * by rewrite lookup_insert_eq in Hl.
  - intros Hin. rewrite handlers_on, decide_True by done. by apply set_add_present.
  - intros Hin. rewrite handlers_on, decide_True by done. by apply set_add_fresh.
  - intros event' He. by rewrite handlers_on, decide_False.
Qed.

(** X2.  [off] removes the handler from its event and from nothing else.
    After [off] the handler is not registered for the event; unregistering
    a handler that is not registered leaves the handlers of every event as
    they were; registering a new handler and unregistering it again gives
    back the handlers the event had. *)
Theorem off_removes_only_the_handler event h (m : Mgr) :
  (h ∉ handlers_of (off event h m) event)
  ∧ (h ∉ handlers_of m event → ∀ event', handlers_of (off event h m) event' = handlers_of m event')
  ∧ (h ∉ handlers_of m event →
     ∀ event', handlers_of (off event h (on event h m)) event' = handlers_of m event')
  ∧ (∀ event', event ≠ event' → handlers_of (off event h m) event' = handlers_of m event')
  ∧ (∀ h', h' ≠ h → h' ∈ handlers_of m event → h' ∈ handlers_of (off event h m) event).
Proof.
  split_and!.
  - rewrite handlers_off, decide_True by done. apply set_delete_not_elem.
  - intros Hin event'. rewrite handlers_off. case_decide; [subst|done].
    by apply set_delete_absent.
  - intros Hin event'. rewrite handlers_off, !handlers_on. case_decide as He; [subst event'|].
    + rewrite decide_True by done. rewrite set_add_fresh by done. by apply set_delete_snoc.
    + done.
  - intros event' He. by rewrite handlers_off, decide_False.
  - intros h' Hne Hin. rewrite handlers_off, decide_True by done.
    unfold set_delete. by apply list_elem_of_filter.
Qed.

(** X3.  No handler is ever registered twice for an event: a new manager
    has no handlers, and [on] and [off] keep the handler lists free of
    duplicates. *)
Theorem listeners_have_no_duplicates event h (m : Mgr) :
  (∀ e, NoDup (handlers_of m e)) →
  (∀ e, NoDup (handlers_of (on event h m) e))
  ∧ (∀ e, NoDup (handlers_of (off event h m) e))
  ∧ (∀ e, handlers_of (@new_manager Handler) e = []).
Proof.
  intros Hnd. split_and!.
  - intros e. rewrite handlers_on. case_decide; [|done]. by apply set_add_NoDup.
  - intros e. rewrite handlers_off. case_decide; [|done]. by apply set_delete_NoDup.
  - intros e. unfold handlers_of, new_manager. cbn. by rewrite lookup_empty.
Qed.

Lemma invoked_handlers event data (sys : @System Handler App) :
  map inv_handler (snd (emit_run call event data sys)) = handlers_of (mgr sys) event.
Proof.
  unfold emit_run.
  pose proof (forEach_handlers call (handlers_of (mgr sys) event) event data (world sys)) as Hh.
  by destruct (forEach call _ event data _).
Qed.

Lemma filter_eq_absent (h : Handler) hs : h ∉ hs → filter (λ h', h' = h) hs = [].
Proof.
  induction hs as [|x hs IH]; intros Hin; [done|].
  apply not_elem_of_cons in Hin as [Hne Hin].
  rewrite filter_cons, decide_False by congruence. auto.
Qed.

Lemma NoDup_count_one (h : Handler) hs :
  NoDup hs → h ∈ hs → length (filter (λ h', h' = h) hs) = 1.
Proof.
  induction 1 as [|x hs Hx Hnd IH]; intros Hin; [by apply elem_of_nil in Hin|].
  rewrite filter_cons. apply elem_of_cons in Hin as [->|Hin].
  - rewrite decide_True by done. cbn. by rewrite filter_eq_absent.
  - rewrite decide_False; [auto|]. intros ->. done.
Qed.

(** X4.  A subscriber is called once per event.  On a manager without
    duplicate registrations, a handler registered for an event, however
    many times [on] was called for it, is invoked exactly once by each
    [emit] of that event, and not at all once it has been unregistered. *)
Theorem emit_invokes_a_subscriber_once event h data (sys : @System Handler App) :
  NoDup (handlers_of (mgr sys) event) →
  let invoked m :=
    filter (λ h', h' = h)
      (map inv_handler (snd (emit_run call event data (with_mgr (λ _, m) sys)))) in
  length (invoked (on event h (mgr sys))) = 1
  ∧ length (invoked (on event h (on event h (mgr sys)))) = 1
  ∧ length (invoked (off event h (on event h (mgr sys)))) = 0.
Proof.
  intros Hnd invoked. unfold invoked. rewrite !invoked_handlers. cbn [mgr with_mgr].
  destruct (on_is_idempotent_and_ordered event h (mgr sys)) as (Hid & _).
  rewrite Hid.
  split_and!.
  - apply NoDup_count_one.
    + rewrite handlers_on, decide_True by done. by apply set_add_NoDup.
    + rewrite handlers_on, decide_True by done. apply set_add_elem.
  - apply NoDup_count_one.
    + rewrite handlers_on, decide_True by done. by apply set_add_NoDup.
    + rewrite handlers_on, decide_True by done. apply set_add_elem.
  - rewrite filter_eq_absent; [done|].
    rewrite handlers_off, decide_True by done. apply set_delete_not_elem.
Qed.

End ListenerFacts.

(** ** The manager's operations *)

Section OperationFacts.

Import Js WebSocket Observe.

Context {Handler : Type} `{EqDecision Handler} {App : Type}.
Variable call : Handler -> Payload -> Js.M (World App) unit.

Abbreviation Sys' := (@System Handler App).



(** X6.  [connect()] is idempotent and silent.  While the socket is
    connected or a connection is being set up it does nothing; otherwise
    it installs a fresh socket and marks the manager as connecting, so a
    second call right after it does nothing.  It never publishes an event,
    never writes to the channel and keeps listeners and counter. *)
Theorem connect_is_idempotent (sys : Sys') :
  state_of (connect (state_of (connect sys))) = state_of (connect sys)
  ∧ (socket_is_connected (mgr sys) || isConnecting (mgr sys) = true →
     state_of (connect sys) = sys)
  ∧ (socket_is_connected (mgr sys) || isConnecting (mgr sys) = false →
     socket (mgr (state_of (connect sys))) = Some io
     ∧ getConnectionState (state_of (connect sys)) = state_connecting)
  ∧ published (state_of (connect sys)) = published sys
  ∧ channel (state_of (connect sys)) = channel sys
  ∧ world (state_of (connect sys)) = world sys
  ∧ listeners (mgr (state_of (connect sys))) = listeners (mgr sys)
  ∧ reconnectAttempts (mgr (state_of (connect sys))) = reconnectAttempts (mgr sys).
Proof.
  destruct (socket_is_connected (mgr sys) || isConnecting (mgr sys)) eqn:Hc.
  - assert (state_of (connect sys) = sys) as -> by (unfold connect; by rewrite Hc).
    split_and!; try done. unfold connect. by rewrite Hc.
  - assert (state_of (connect sys)
            = with_mgr (λ m, {| socket := Some io; listeners := listeners m;
                                reconnectAttempts := reconnectAttempts m;
                                isConnecting := true |}) sys) as ->
      by (unfold connect; by rewrite Hc).
    split_and!; done.
Qed.

(** X7.  The connection state follows the socket's life cycle.  On a
    manager with a socket: the [connect] event makes the manager connected,
    resets the counter and publishes one [connection-status] event with
    status [connected]; a [disconnect] event makes it disconnected and
    publishes one with status [disconnected] and the reason as message.
    After a [connect_error] on a socket that is not connected the manager
    is disconnected, not connecting, so a call of [connect()] starts over
    with a fresh socket. *)
Theorem connection_state_follows_lifecycle (sys : Sys') :
  socket (mgr sys) ≠ None →
  (let sys' := state_of (fire call In_connect sys) in
   getConnectionState sys' = state_connected
   ∧ isConnected sys' = true
   ∧ reconnectAttempts (mgr sys') = 0%Z
   ∧ published sys'
     = published sys
       ++ [("connection-status",
            PConnectionStatus
              {| status := connected; cs_message := Some "Connected to server"; sid := None |})])
  ∧ (∀ reason,
       let sys' := state_of (fire call (In_disconnect reason) sys) in
       getConnectionState sys' = state_disconnected
       ∧ isConnected sys' = false
       ∧ reconnectAttempts (mgr sys') = reconnectAttempts (mgr sys)
       ∧ published sys'
         = published sys
           ++ [("connection-status",
                PConnectionStatus
                  {| status := disconnected; cs_message := Some reason; sid := None |})])
  ∧ (∀ msg,
       isConnected sys = false →
       let sys' := state_of (fire call (In_connect_error msg) sys) in
       getConnectionState sys' = state_disconnected
       ∧ socket (mgr (state_of (connect sys'))) = Some io
       ∧ getConnectionState (state_of (connect sys')) = state_connecting).
Proof.
  intros Hs. unfold fire, isConnected, getConnectionState, socket_is_connected.
  destruct (socket (mgr sys)) as [s|] eqn:Hsock; [|done].
  split; [|split].
  - unfold setupEventHandlers, mbind, js_bind, bind, modify. cbn -[emit].
    match goal with |- context [emit call ?e ?d ?s] =>
      destruct (emit_frame call e d s) as (Hm & Hp & Hc) end.
    rewrite ?Hm, ?Hp. cbn. by rewrite Hsock.
  - intros reason. unfold setupEventHandlers, mbind, js_bind, bind, modify. cbn -[emit].
    match goal with |- context [emit call ?e ?d ?s] =>
      destruct (emit_frame call e d s) as (Hm & Hp & Hc) end.
    rewrite ?Hm, ?Hp. cbn. by rewrite Hsock.
  - intros msg Hnc.
    destruct (fire_connect_error call msg sys) as (Hs' & _ & _ & _ & _); [by rewrite Hsock|].
    unfold fire in Hs'. rewrite Hsock in Hs'.
    set (sys' := state_of (setupEventHandlers call (In_connect_error msg) sys)) in *.
    assert (isConnecting (mgr sys') = false) as Hic.
    { unfold sys', setupEventHandlers, mbind, js_bind, bind, log_error, modify, gets.
      cbn -[emit Z.leb Z.add].
      destruct (_ <=? _)%Z; [|done].
      match goal with |- context [emit call ?e ?d ?s] =>
        destruct (emit_frame call e d s) as (Hm & _) end.
      by rewrite Hm. }
    rewrite Hs'. cbn. rewrite Hnc, Hic. split; [done|].
    unfold connect, socket_is_connected. rewrite Hs', Hic. cbn. by rewrite Hnc.
Qed.


Lemma fire_keeps_listeners ev (sys : Sys') :
  listeners (mgr (state_of (fire call ev sys))) = listeners (mgr sys).
Proof.
  unfold fire. destruct (socket (mgr sys)); [|done].
  destruct ev as [|reason|msg|name data]; unfold setupEventHandlers.
  - unfold mbind, js_bind, bind, modify. cbn -[emit].
    match goal with |- context [emit call ?e ?d ?s] =>
      destruct (emit_frame call e d s) as (Hm & _) end.
    by rewrite Hm.
  - unfold mbind, js_bind, bind, modify. cbn -[emit].
    match goal with |- context [emit call ?e ?d ?s] =>
      destruct (emit_frame call e d s) as (Hm & _) end.
    by rewrite Hm.
  - unfold mbind, js_bind, bind, modify, log_error, gets. cbn -[emit Z.leb Z.add].
    destruct (_ <=? _)%Z; [|done].
    match goal with |- context [emit call ?e ?d ?s] =>
      destruct (emit_frame call e d s) as (Hm & _) end.
    by rewrite Hm.
  - destruct (registration name forwarded) as [[local [label|]]|]; [| |done].
    + unfold mbind, js_bind, bind, modify, log_error. cbn -[emit].
      match goal with |- context [emit call ?e ?d ?s] =>
        destruct (emit_frame call e d s) as (Hm & _) end.
      by rewrite Hm.
    + destruct (emit_frame call local data sys) as (Hm & _). by rewrite Hm.
Qed.

Lemma fire_is_normal ev (sys : Sys') :
  fire call ev sys = Normal tt (state_of (fire call ev sys)).
Proof.
  unfold fire. destruct (socket (mgr sys)); [|done].
  destruct ev as [|reason|msg|name data]; unfold setupEventHandlers; try done.
  - unfold mbind, js_bind, bind, log_error, modify, gets. cbn -[emit Z.leb Z.add].
    by destruct (_ <=? _)%Z.
  - by destruct (registration name forwarded) as [[local [label|]]|].
Qed.

Lemma disconnect_result (sys : Sys') :
  listeners (mgr (state_of (disconnect call sys))) = listeners (mgr sys)
  ∧ socket (mgr (state_of (disconnect call sys))) = None
  ∧ (socket (mgr sys) ≠ None → isConnecting (mgr (state_of (disconnect call sys))) = false).
Proof.
  unfold disconnect. destruct (socket (mgr sys)) as [s|] eqn:Hs; [|done].
  unfold mbind, js_bind, bind, modify. destruct (socket_connected s); [|done].
  rewrite fire_is_normal. cbn. by rewrite fire_keeps_listeners.
Qed.

(** X9.  Subscriptions outlive the connection.  Nothing but [on] and [off]
    changes who is registered: inbound events of any kind, [emit],
    [connect()], [disconnect()], [sendQuery] and [sendMessage] all leave
    the listeners of every event as they are, so a subscriber stays
    subscribed across disconnects and reconnects.  After [disconnect()]
    the manager has no socket and is not connected, and if it had a socket
    it reports itself disconnected. *)
Theorem subscriptions_outlive_the_connection (sys : Sys') :
  (∀ ev, listeners (mgr (state_of (fire call ev sys))) = listeners (mgr sys))
  ∧ (∀ event data, listeners (mgr (state_of (emit call event data sys))) = listeners (mgr sys))
  ∧ listeners (mgr (state_of (connect sys))) = listeners (mgr sys)
  ∧ listeners (mgr (state_of (disconnect call sys))) = listeners (mgr sys)
  ∧ (∀ req, listeners (mgr (state_of (sendQuery call req sys))) = listeners (mgr sys))
  ∧ (∀ msg d c, listeners (mgr (state_of (sendMessage msg d c sys))) = listeners (mgr sys))
  ∧ socket (mgr (state_of (disconnect call sys))) = None
  ∧ isConnected (state_of (disconnect call sys)) = false
  ∧ (socket (mgr sys) ≠ None →
     getConnectionState (state_of (disconnect call sys)) = state_disconnected).
Proof.
  assert (∀ event data (s : Sys'),
            listeners (mgr (state_of (emit call event data s))) = listeners (mgr s)) as Hemit.
  { intros event data s. destruct (emit_frame call event data s) as (Hm & _). by rewrite Hm. }
  destruct (disconnect_result sys) as (Hd1 & Hd2 & Hd3).
  split_and!; try done.
  - intros ev. apply fire_keeps_listeners.
  - unfold connect. by destruct (_ || _).
  - intros req. unfold sendQuery. destruct (negb _); [|done].
    unfold mbind, js_bind, bind, log_error, modify. cbn -[emit]. by rewrite Hemit.
  - intros msg d c. unfold sendMessage. by destruct (negb _).
  - unfold isConnected, socket_is_connected. by rewrite Hd2.
  - intros Hs. unfold getConnectionState, socket_is_connected. by rewrite Hd2, Hd3.
Qed.

End OperationFacts.

(** ** The chat component as a whole *)

Section TrackerFacts.

Import Js WebSocket Chat Observe Scenario Cover.

Lemma queued_refl (w : World) : queued w w.
Proof. split_and!; try done. exists []. by rewrite app_nil_r. Qed.

Lemma queued_trans (w1 w2 w3 : World) : queued w1 w2 → queued w2 w3 → queued w1 w3.
Proof.
  intros (A1 & A2 & A3 & us & A4) (B1 & B2 & B3 & vs & B4).
  split_and!; [congruence..|]. exists (us ++ vs). by rewrite B4, A4, app_assoc.
Qed.

Lemma queued_queue us (w : World) : queued w (queue us w).
Proof. split_and!; try done. by exists us. Qed.

Lemma queued_console label arg (w : World) : queued w (WebSocket.console_error label arg w).
Proof. split_and!; try done. exists []. cbn. by rewrite app_nil_r. Qed.

Lemma queued_toast t (w : World) : queued w (add_toast t w).
Proof. split_and!; try done. exists []. cbn. by rewrite app_nil_r. Qed.

Lemma call_queued h data (w : World) : queued w (state_of (call h data w)).
Proof.
  destruct h.
  - destruct data; (split_and!; [done..|]);
      unfold call, mbind, js_bind, bind, setState, modify; cbn;
      first [by exists [SetIsConnected false] | eexists; by rewrite <- app_assoc].
  - rewrite call_handleThinkingStream. apply queued_queue.
  - rewrite call_handleNodes. apply queued_queue.
  - rewrite call_handleAnswerStream. apply queued_queue.
  - rewrite call_handleAnswerComplete. cbn zeta.
    destruct (default false _); [apply (queued_queue (completion_updates _))|].
    destruct (WebSocket.cost _); apply (queued_queue (completion_updates _)).
  - rewrite call_handleQueryError. cbn [state_of].
    eapply queued_trans; [apply queued_console|apply queued_queue].
  - rewrite call_handleQueryStarted. apply queued_queue.
  - rewrite call_handleQueryCompleted. apply queued_queue.
Qed.

Lemma invoke_queued event data h (w : World) :
  queued w (state_of (invoke call event data h w)).
Proof.
  rewrite invoke_catches. cbn [state_of].
  pose proof (call_queued h data w) as Hq.
  destruct (call h data w) as [[] w'|err w']; [done|].
  eapply queued_trans; [exact Hq|apply queued_console].
Qed.

Lemma emit_queued event data (sys : System) :
  queued (world sys) (world (state_of (emit call event data sys))).
Proof.
  rewrite emit_world. generalize (handlers_of (mgr sys) event) (world sys).
  intros hs. induction hs as [|h hs IH]; intros w; [apply queued_refl|].
  cbn [fold_left]. eapply queued_trans; [apply invoke_queued|apply IH].
Qed.

Lemma fire_queued ev (sys : System) :
  queued (world sys) (world (state_of (fire call ev sys))).
Proof.
  unfold fire. destruct (socket (mgr sys)); [|apply queued_refl].
  destruct ev as [|reason|msg|name data]; unfold setupEventHandlers.
  - unfold mbind, js_bind, bind, modify. cbn -[emit].
    match goal with |- context [emit call ?e ?d ?s] => apply (emit_queued e d s) end.
  - unfold mbind, js_bind, bind, modify. cbn -[emit].
    match goal with |- context [emit call ?e ?d ?s] => apply (emit_queued e d s) end.
  - unfold mbind, js_bind, bind, modify, log_error, gets. cbn -[emit Z.leb Z.add].
    destruct (_ <=? _)%Z; cbn -[emit].
    + match goal with |- context [emit call ?e ?d ?s] =>
        eapply queued_trans; [|apply (emit_queued e d s)] end.
      apply queued_console.
    + apply queued_console.
  - destruct (registration name forwarded) as [[local [label|]]|]; [| |apply queued_refl].
    + unfold mbind, js_bind, bind, modify, log_error. cbn -[emit].
      match goal with |- context [emit call ?e ?d ?s] =>
        eapply queued_trans; [|apply (emit_queued e d s)] end.
      apply queued_console.
    + apply emit_queued.
Qed.

Lemma sendQuery_queued req (sys : System) :
  queued (world sys) (world (state_of (sendQuery call req sys))).
Proof.
  unfold sendQuery. destruct (negb _); [|apply queued_refl].
  unfold mbind, js_bind, bind, modify, log_error. cbn -[emit].
  match goal with |- context [emit call ?e ?d ?s] =>
    eapply queued_trans; [|apply (emit_queued e d s)] end.
  apply queued_console.
Qed.

Lemma disconnect_queued (sys : System) :
  queued (world sys) (world (state_of (disconnect call sys))).
Proof.
  unfold disconnect. destruct (socket (mgr sys)) as [s|]; [|apply queued_refl].
  unfold mbind, js_bind, bind, modify. destruct (socket_connected s); [|apply queued_refl].
  rewrite fire_is_normal. cbn. apply fire_queued.
Qed.

Lemma messages_apply_update st u : messages st `prefix_of` messages (apply_update st u).
Proof. destruct u; cbn; try done. by apply prefix_app_r. Qed.

Lemma messages_fold us st :
  messages st `prefix_of` messages (fold_left apply_update us st).
Proof.
  revert st. induction us as [|u us IH]; intros st; [done|].
  cbn. etrans; [apply messages_apply_update|apply IH].
Qed.

Lemma queued_flush (w w' : World) :
  queued w w' → ∃ us, flush (chat (app w')) = fold_left apply_update us (flush (chat (app w))).
Proof.
  intros (Hc & _ & _ & us & Hp). exists us. unfold flush. by rewrite Hc, Hp, fold_left_app.
Qed.

(** Every task but a render leaves the rendered state alone and only adds
    to the queue. *)
Lemma step_queued (sys : System) (s : Step) :
  s ≠ Render →
  shown (step sys s) = shown sys
  ∧ renders (chat (app (world (step sys s)))) = renders (chat (app (world sys)))
  ∧ ∃ us, live (step sys s) = fold_left apply_update us (live sys).
Proof.
  intros Hs.
  assert (queued (world sys) (world (step sys s)) →
          shown (step sys s) = shown sys
          ∧ renders (chat (app (world (step sys s)))) = renders (chat (app (world sys)))
          ∧ ∃ us, live (step sys s) = fold_left apply_update us (live sys)) as Hq.
  { intros Hq. split_and!; [by destruct Hq|by destruct Hq as (_ & ? & _)|by apply queued_flush]. }
  destruct s as [ev| |req| | |t]; cbn [step] in *; try done.
  - apply Hq, fire_queued.
  - apply Hq, sendQuery_queued.
  - apply Hq. unfold connect. destruct (_ || _); apply queued_refl.
  - apply Hq, disconnect_queued.
  - split_and!; [done|done|]. by exists [].
Qed.

(** X10.  The transcript is append-only.  Whatever the listeners and
    whatever happens (inbound events of any kind, renders, requests,
    connects and disconnects), the messages of the chat only ever grow at
    the end: the messages before a run are a prefix of the messages after
    it, in the hook state and on screen. *)
Theorem transcript_is_append_only tr (sys : System) :
  messages (live sys) `prefix_of` messages (live (run tr sys))
  ∧ messages (shown sys) `prefix_of` messages (shown (run tr sys)).
Proof.
  revert sys. induction tr as [|s tr IH]; intros sys; [done|].
  cbn [run fold_left]. fold (run tr (step sys s)).
  destruct (IH (step sys s)) as [IHl IHs].
  assert (s = Render ∨ s ≠ Render) as [->|Hs] by (destruct s; auto).
  - split; [done|]. etrans; [|exact IHs]. cbn [step]. rewrite shown_render.
    apply messages_fold.
  - destruct (step_queued sys s Hs) as (Hsh & _ & us & Hl).
    split.
    + etrans; [|exact IHl]. rewrite Hl. apply messages_fold.
    + etrans; [|exact IHs]. by rewrite Hsh.
Qed.

(** *** Listeners across renders *)

Lemma step_keeps_listeners (sys : System) (s : Step) :
  s ≠ Render → listeners (mgr (step sys s)) = listeners (mgr sys).
Proof.
  intros Hs. destruct s as [ev| |req| | |t]; cbn [step]; try done.
  - apply fire_keeps_listeners.
  - unfold sendQuery. destruct (negb _); [|done].
    unfold mbind, js_bind, bind, log_error, modify. cbn -[emit].
    match goal with |- context [emit call ?e ?d ?s] =>
      destruct (emit_frame call e d s) as (Hm & _) end.
    by rewrite Hm.
  - unfold connect. by destruct (_ || _).
  - by destruct (disconnect_result call sys) as (Hd & _).
Qed.

Lemma sole_listeners_same regs (m m' : Manager) :
  listeners m' = listeners m → sole_listeners regs m → sole_listeners regs m'.
Proof.
  intros Hl. induction regs as [|[event h] regs IH]; [done|].
  cbn. rewrite Hl. intros [? ?]. auto.
Qed.

Lemma status_listener_kept r a r' a' (m : Manager) :
  listeners (effect_setup r' a' (effect_cleanup r a m)) !! "connection-status"
  = listeners m !! "connection-status".
Proof.
  unfold effect_setup, effect_cleanup, registrations. cbn [fold_left].
  repeat first [ rewrite lookup_on_ne by discriminate
               | rewrite lookup_off_ne by discriminate ].
  done.
Qed.

(** The listeners of the mounted component: the seven closures of the
    last render, and the status listener of [useWebSocket]. *)
Lemma mounted_listeners tr t :
  let sys := run tr (mount t) in
  sole_listeners
    (registrations (renders (chat (app (world sys)))) (streamedAnswer (shown sys))) (mgr sys)
  ∧ listeners (mgr sys) !! "connection-status" = Some [handleConnectionStatus].
Proof.
  cbn zeta.
  assert (∀ sys : System,
    sole_listeners
      (registrations (renders (chat (app (world sys)))) (streamedAnswer (shown sys))) (mgr sys)
    ∧ listeners (mgr sys) !! "connection-status" = Some [handleConnectionStatus] →
    sole_listeners
      (registrations (renders (chat (app (world (run tr sys)))))
         (streamedAnswer (shown (run tr sys)))) (mgr (run tr sys))
    ∧ listeners (mgr (run tr sys)) !! "connection-status" = Some [handleConnectionStatus])
    as Hrun.
  { induction tr as [|s tr IH]; intros sys [Hl Hc]; [done|].
    cbn [run fold_left]. fold (run tr (step sys s)). apply IH.
    assert (s = Render ∨ s ≠ Render) as [->|Hs] by (destruct s; auto).
    - cbn [step]. unfold shown in Hl.
      destruct (effect_rerun _ _ (streamedAnswer (flush (chat (app (world sys))))) _ Hl)
        as [Hl' _].
      split; [exact Hl'|]. unfold render. cbn [mgr]. by rewrite status_listener_kept.
    - destruct (step_queued sys s Hs) as (Hsh & Hr & _).
      pose proof (step_keeps_listeners sys s Hs) as Hk.
      rewrite Hsh, Hr, Hk. split; [|done]. by eapply sole_listeners_same. }
  apply Hrun. split; vm_compute; done.
Qed.


(** *** The answer *)

Lemma run_app tr1 tr2 (sys : System) : run (tr1 ++ tr2) sys = run tr2 (run tr1 sys).
Proof. apply fold_left_app. Qed.

Lemma answer_appended evs (sys : System) :
  wired sys →
  streamedAnswer (live (run (map stream_step evs) sys))
  = streamedAnswer (live sys) +:+ join (answer_chunks evs)
  ∧ messages (live (run (map stream_step evs) sys)) = messages (live sys)
  ∧ isStreamingAnswer (live (run (map stream_step evs) sys))
    = match answer_chunks evs with
      | [] => isStreamingAnswer (live sys)
      | _ => true
      end.
Proof.
  revert sys. induction evs as [|ev evs IH]; intros sys Hw.
  - cbn. by rewrite append_nil_r.
  - cbn [map run fold_left]. fold (run (map stream_step evs) (step sys (stream_step ev))).
    destruct (IH (step sys (stream_step ev))) as (IH1 & IH2 & IH3);
      [by apply stream_step_wired|].
    rewrite IH1, IH2, IH3. rewrite live_stream_step by done.
    destruct ev as [chunk|node_list|chunk|]; try done.
    change (answer_chunks (Answer chunk :: evs)) with (chunk :: answer_chunks evs).
    cbn [apply_update streamedAnswer messages isStreamingAnswer join fold_right].
    fold (join (answer_chunks evs)). split_and!; [apply append_assoc|done|].
    by destruct (answer_chunks evs).
Qed.

(** X12.  The answer text is the concatenation of the answer chunks.  For
    every stream of chunk and node events, with renders anywhere in
    between, the answer text after the stream is the text before it
    followed by the [query:answer_stream] chunks in arrival order, and
    exactly their concatenation when counted from [query:started]; the
    stream adds no message, and once an answer chunk has arrived the
    component is marked as streaming an answer. *)
Theorem answer_text_is_concatenation evs (sys : System) :
  wired sys →
  streamedAnswer (live (run (map stream_step evs) sys))
  = streamedAnswer (live sys) +:+ join (answer_chunks evs)
  ∧ (∀ q, streamedAnswer (live (run (query_started q :: map stream_step evs) sys))
          = join (answer_chunks evs))
  ∧ messages (live (run (map stream_step evs) sys)) = messages (live sys)
  ∧ (answer_chunks evs ≠ [] → isStreamingAnswer (live (run (map stream_step evs) sys)) = true).
Proof.
  intros Hw. destruct (answer_appended evs sys Hw) as (H1 & H2 & H3).
  split_and!; [done| |done|].
  - intros q. cbn [run fold_left]. fold (run (map stream_step evs) (step sys (query_started q))).
    destruct (answer_appended evs (step sys (query_started q))) as (H1' & _);
      [by apply step_wired|].
    rewrite H1'. unfold live at 1. by rewrite world_query_started, flush_queue.
  - intros Hne. rewrite H3. by destruct (answer_chunks evs).
Qed.


(** X14.  What the completion listener shows.  In a mounted component the
    [query:answer_complete] event always queues the completion updates
    (the assistant message and the resets).  Then: a cached answer shows
    the cache toast; an answer with a cost shows the toast with tokens and
    cost; an event that is not cached and has no cost shows no toast, for
    the listener fails with a [TypeError] that [emit] catches and logs. *)
Theorem completion_toast_or_type_error e (sys : System) :
  wired sys →
  let w' :=
    queue (completion_updates
             (assistant_message (now (app (world sys))) (streamedAnswer (shown sys)) e))
      (world sys) in
  world (step sys (answer_complete e))
  = if default false (WebSocket.cached e) then add_toast toast_success_cached w'
    else match WebSocket.cost e with
         | Some c => add_toast (toast_success_completed (tokens_used e) c) w'
         | None =>
             WebSocket.console_error "Error in event handler for query:answer_complete:"
               (ArgError (TypeError "Cannot read properties of undefined (reading 'toFixed')"))
               w'
         end.
Proof.
  intros (Hs & _ & _ & _ & H4 & _). unfold answer_complete.
  erewrite deliver_forwarded; [|done|done|exact H4].
  rewrite invoke_catches, call_handleAnswerComplete. cbn zeta. cbn [data_answer].
  destruct (default false _); [done|]. by destruct (WebSocket.cost e).
Qed.

(** *** Failure and connection status *)

Lemma call_handleConnectionStatus e (w : World) :
  call handleConnectionStatus (PConnectionStatus e) w
  = Normal tt
      (queue [ SetConnectionStatus e;
               SetIsConnected (match status e with connected => true | _ => false end) ] w).
Proof.
  unfold call, mbind, js_bind, bind, setState, modify, queue. cbn. by rewrite <- app_assoc.
Qed.

Lemma status_published e (sys : System) :
  listeners (mgr sys) !! "connection-status" = Some [handleConnectionStatus] →
  world (state_of (emit call "connection-status" (PConnectionStatus e) sys))
  = queue [ SetConnectionStatus e;
            SetIsConnected (match status e with connected => true | _ => false end) ]
      (world sys).
Proof.
  intros Hl. rewrite emit_sole with (h := handleConnectionStatus) by done.
  by rewrite invoke_catches, call_handleConnectionStatus.
Qed.

Lemma render_keeps_socket (sys : System) : socket (mgr (render sys)) = socket (mgr sys).
Proof. done. Qed.

(** X15.  The connection status reaches the component.  On the mounted
    component, after any sequence of tasks that has left the manager with a
    socket: once the socket's [connect] event has been rendered the
    component shows itself connected, in agreement with the manager; once
    a [disconnect] event has been rendered it shows itself disconnected,
    with the reason as message; a [connect_error] below the attempt cap
    tells the component nothing, and one that reaches the cap shows the
    status [error]. *)
Theorem connection_status_reaches_the_component tr t :
  let sys := run tr (mount t) in
  socket (mgr sys) ≠ None →
  (let sys' := run [Deliver In_connect; Render] sys in
   isConnected (shown sys') = true
   ∧ status (connectionStatus (shown sys')) = connected
   ∧ WebSocket.isConnected sys' = true)
  ∧ (∀ reason,
       let sys' := run [Deliver (In_disconnect reason); Render] sys in
       isConnected (shown sys') = false
       ∧ connectionStatus (shown sys')
         = {| status := disconnected; cs_message := Some reason; sid := None |}
       ∧ WebSocket.isConnected sys' = false)
  ∧ (∀ msg,
       let sys' := run [Deliver (In_connect_error msg); Render] sys in
       if (maxReconnectAttempts <=? reconnectAttempts (mgr sys) + 1)%Z
       then isConnected (shown sys') = false
            ∧ status (connectionStatus (shown sys')) = error
       else isConnected (shown sys') = isConnected (live sys)
            ∧ connectionStatus (shown sys') = connectionStatus (live sys)).
Proof.
  cbn zeta. intros Hs.
  destruct (mounted_listeners tr t) as [_ Hc]. cbn zeta in Hc.
  set (sys := run tr (mount t)) in *.
  destruct (socket (mgr sys)) as [s|] eqn:Hsock; [|done].
  split; [|split].
  - cbn [run fold_left step]. rewrite shown_render.
    unfold WebSocket.isConnected, socket_is_connected. rewrite render_keeps_socket.
    unfold live, fire. rewrite Hsock.
    unfold setupEventHandlers, mbind, js_bind, bind, modify. cbn -[emit].
    match goal with |- context [emit call ?e ?d ?s] =>
      destruct (emit_frame call e d s) as (Hm & _) end.
    rewrite Hm, status_published by done. rewrite flush_queue. cbn. by rewrite Hsock.
  - intros reason. cbn [run fold_left step]. rewrite shown_render.
    unfold WebSocket.isConnected, socket_is_connected. rewrite render_keeps_socket.
    unfold live, fire. rewrite Hsock.
    unfold setupEventHandlers, mbind, js_bind, bind, modify. cbn -[emit].
    match goal with |- context [emit call ?e ?d ?s] =>
      destruct (emit_frame call e d s) as (Hm & _) end.
    rewrite Hm, status_published by done. rewrite flush_queue. cbn. by rewrite Hsock.
  - intros msg. cbn [run fold_left step]. rewrite shown_render.
    unfold live, fire. rewrite Hsock.
    unfold setupEventHandlers, mbind, js_bind, bind, modify, log_error, gets.
    cbn -[emit Z.leb Z.add maxReconnectAttempts].
    destruct (maxReconnectAttempts <=? reconnectAttempts (mgr sys) + 1)%Z.
    + rewrite status_published by done. by rewrite flush_queue.
    + done.
Qed.

(** X16.  A query that cannot be sent fails in the chat.  When the
    component asks the manager to send a query while the manager is not
    connected, nothing goes out on the channel; after the next render the
    transcript ends with the system message for the not-connected error,
    the component is no longer loading and has no current question, and no
    toast has been added. *)
Theorem unsent_query_fails_in_the_chat req (sys : System) :
  wired sys →
  WebSocket.isConnected sys = false →
  let sys' := run [SendQuery req; Render] sys in
  messages (shown sys')
  = messages (live sys)
    ++ [error_message (now (app (world sys))) (snd (not_connected_error req))]
  ∧ content (error_message (now (app (world sys))) (snd (not_connected_error req)))
    = "Error: Not connected to server. Please try again."
  ∧ isLoading (shown sys') = false
  ∧ currentQuestionId (shown sys') = None
  ∧ toasts (app (world sys')) = toasts (app (world sys))
  ∧ channel sys' = channel sys.
Proof.
  intros (Hs & _ & _ & _ & _ & H5 & _) Hc. cbn zeta. cbn [run fold_left step].
  rewrite shown_render. unfold WebSocket.isConnected in Hc.
  unfold live, render, sendQuery. rewrite Hc. cbn -[emit].
  unfold mbind, js_bind, bind, log_error, modify. cbn -[emit].
  match goal with |- context [emit call ?e ?d ?s] =>
    destruct (emit_frame call e d s) as (_ & _ & Hch);
    pose proof (emit_sole e d (handleQueryError (renders (chat (app (world sys))))) s H5) as Hw
  end.
  rewrite Hch, Hw, invoke_catches, call_handleQueryError. cbn [state_of].
  unfold WebSocket.console_error, queue, flush, with_world, error_message. cbn.
  rewrite !fold_left_app. cbn. split_and!; reflexivity.
Qed.

(** X17.  A failed question keeps its partial text.  When [query:error]
    ends a question, the thinking and answer text accumulated since
    [query:started] stay in the accumulators (the error listener resets
    none of them); the transcript gets the system message of the error and
    loading ends.  The next [query:started] empties the accumulators. *)
Theorem failure_keeps_partial_text evs q e (sys : System) :
  wired sys →
  let sysF := run (query_started q :: map stream_step evs ++ [query_error e; Render]) sys in
  streamedThinking (shown sysF) = join (thinking_chunks evs)
  ∧ streamedAnswer (shown sysF) = join (answer_chunks evs)
  ∧ (∃ t, messages (shown sysF) = messages (live sys) ++ [error_message t (PQueryError e)])
  ∧ isLoading (shown sysF) = false
  ∧ currentQuestionId (shown sysF) = None
  ∧ ∀ q', accumulators (live (step sysF (query_started q')))
          = (EmptyString, [], EmptyString).
Proof.
  intros Hw. cbn zeta. cbn [run fold_left].
  fold (run (map stream_step evs ++ [query_error e; Render]) (step sys (query_started q))).
  rewrite run_app.
  set (sys0 := step sys (query_started q)).
  assert (wired sys0) as Hw0 by (by apply step_wired).
  assert (messages (live sys0) = messages (live sys)
          ∧ streamedAnswer (live sys0) = EmptyString
          ∧ streamedThinking (live sys0) = EmptyString) as (Hm0 & Ha0 & Ht0).
  { unfold sys0, live. by rewrite world_query_started, flush_queue. }
  destruct (answer_appended evs sys0 Hw0) as (H1 & H2 & _).
  pose proof (thinking_appended evs sys0 Hw0) as H3.
  set (sys1 := run (map stream_step evs) sys0) in *.
  assert (wired sys1) as Hw1 by (by apply stream_wired).
  cbn [run fold_left]. change (step (step sys1 (query_error e)) Render)
    with (render (step sys1 (query_error e))).
  assert (wired (render (step sys1 (query_error e)))) as HwF
    by (by apply render_wired, step_wired).
  rewrite Ha0 in H1. rewrite Ht0 in H3. rewrite Hm0 in H2.
  clearbody sys1. clear Hw0 Hm0 Ha0 Ht0. clearbody sys0.
  assert (∀ q', accumulators (live (step (render (step sys1 (query_error e)))
                                      (query_started q')))
                = (EmptyString, [], EmptyString)) as Hnext.
  { intros q'. unfold live. by rewrite world_query_started, flush_queue. }
  rewrite !shown_render.
  unfold live, flush in H1, H2, H3.
  split_and!; try exact Hnext;
    unfold live; rewrite world_query_error by done;
    unfold WebSocket.console_error, queue, flush, error_message; cbn;
    rewrite ?fold_left_app; cbn; rewrite ?H1, ?H2, ?H3; try done.
  by eexists.
Qed.

End TrackerFacts.

(** ** The documents panel as a whole *)

Section PanelFacts.

Import Documents DocumentActions Scenario Cover.

Lemma documents_socket_on ev (p : Panel) :
  ∃ f, documents (socket_on ev p) = f <$> documents p
       ∧ (∀ doc, identity (f doc) = identity doc)
       ∧ (∀ doc, target ev ≠ Some (id doc) → f doc = doc)
       ∧ (∀ doc, target ev = Some (id doc) → doc_progress (f doc) = carried_progress ev).
Proof.
  destruct ev as [|e|e|e|e|e|e|e|e]; cbn [socket_on target carried_progress].
  1: { exists (λ doc, doc). split; [by rewrite list_fmap_id|done]. }
  1-4: eexists; split;
       [first [ rewrite documents_onDocumentUpdate; reflexivity
              | rewrite documents_onDocumentUpdate; cbn; reflexivity ]|];
       cbn; split_and!; intros doc; try intros Hd;
       destruct (Z.eqb_spec (id doc) (doc_id e)); try done; congruence.
  all: eexists; split; [rewrite documents_onTreeGeneration; reflexivity|];
       cbn; split_and!; intros doc; try intros Hd;
       destruct (Z.eqb_spec (id doc) (t_doc_id e)); try done; congruence.
Qed.

Lemma identities_kept evs (p : Panel) :
  identity <$> documents (deliver evs p) = identity <$> documents p.
Proof.
  revert p. induction evs as [|ev evs IH]; intros p; [done|].
  cbn [deliver fold_left]. fold (deliver evs (socket_on ev p)). rewrite IH.
  destruct (documents_socket_on ev p) as (f & Hd & Hf & _). rewrite Hd.
  rewrite <- list_fmap_compose. apply list_fmap_ext. intros ? doc _. apply Hf.
Qed.

(** X18.  Socket events never add, remove, reorder or rename documents.
    After any sequence of document and tree events, the panel lists the
    same documents in the same order, each with the [id], [name], [size]
    and [uploadDate] it had. *)
Theorem events_keep_the_document_list evs (p : Panel) :
  identity <$> documents (deliver evs p) = identity <$> documents p
  ∧ length (documents (deliver evs p)) = length (documents p).
Proof.
  pose proof (identities_kept evs p) as Hi.
  split; [done|]. by rewrite <- (length_fmap identity), Hi, length_fmap.
Qed.

Lemma untargeted_job_kept evs (p : Panel) i doc :
  documents p !! i = Some doc →
  Forall (λ ev, target ev ≠ Some (id doc)) evs →
  documents (deliver evs p) !! i = Some doc.
Proof.
  revert p. induction evs as [|ev evs IH]; intros p Hi Hev; [done|].
  inversion Hev as [|? ? Hne Hev']; subst.
  cbn [deliver fold_left]. fold (deliver evs (socket_on ev p)). apply IH; [|done].
  destruct (documents_socket_on ev p) as (f & Hd & _ & Hf & _). rewrite Hd.
  rewrite list_lookup_fmap, Hi. cbn. f_equal. by apply Hf.
Qed.

Lemma unlisted_job_ignored evs (p : Panel) j :
  (∀ doc, doc ∈ documents p → id doc ≠ j) →
  Forall (λ ev, target ev = Some j) evs →
  documents (deliver evs p) = documents p.
Proof.
  revert p. induction evs as [|ev evs IH]; intros p Hj Hev; [done|].
  inversion Hev as [|? ? Ht Hev']; subst.
  cbn [deliver fold_left]. fold (deliver evs (socket_on ev p)).
  destruct (documents_socket_on ev p) as (f & Hd & _ & Hf & _).
  assert (documents (socket_on ev p) = documents p) as Hsame.
  { rewrite Hd. rewrite <- (list_fmap_id (documents p)) at 2.
    apply list_fmap_ext. intros i doc Hi. apply Hf. rewrite Ht.
    intros [= Hid]. apply (Hj doc); [|done]. apply list_elem_of_lookup. eauto. }
  rewrite IH; [done| |done]. intros doc. rewrite Hsame. apply Hj.
Qed.

(** X19.  Jobs do not interfere.  A sequence of events none of which is
    about a given document leaves the record of that document exactly as
    it was; and a sequence of events about a document that the panel does
    not list changes no record at all. *)
Theorem other_jobs_are_untouched evs (p : Panel) :
  (∀ i doc, documents p !! i = Some doc →
            Forall (λ ev, target ev ≠ Some (id doc)) evs →
            documents (deliver evs p) !! i = Some doc)
  ∧ (∀ j, (∀ doc, doc ∈ documents p → id doc ≠ j) →
          Forall (λ ev, target ev = Some j) evs →
          documents (deliver evs p) = documents p).
Proof.
  split.
  - intros i doc. apply untargeted_job_kept.
  - intros j. apply unlisted_job_ignored.
Qed.

(** X20.  The stored progress is that of the last event.  After any
    sequence of events, the progress stored for a document is the
    [progress] field of the last event about it, whatever came before, and
    undefined if that event has none. *)
Theorem progress_is_that_of_the_last_event evs ev (p : Panel) i doc :
  documents p !! i = Some doc →
  target ev = Some (id doc) →
  ∃ doc', documents (deliver (evs ++ [ev]) p) !! i = Some doc'
          ∧ identity doc' = identity doc
          ∧ doc_progress doc' = carried_progress ev.
Proof.
  intros Hi Ht. unfold deliver. rewrite fold_left_app. cbn [fold_left].
  fold (deliver evs p).
  assert (∃ doc1, documents (deliver evs p) !! i = Some doc1
                  ∧ identity doc1 = identity doc) as (doc1 & H1 & Hid).
  { pose proof (identities_kept evs p) as Hk.
    apply (f_equal (λ l, l !! i)) in Hk. rewrite !list_lookup_fmap, Hi in Hk.
    destruct (documents (deliver evs p) !! i) as [doc1|]; [|done].
    exists doc1. split; [done|]. cbn in Hk. congruence. }
  destruct (documents_socket_on ev (deliver evs p)) as (f & Hd & Hf & _ & Hp).
  exists (f doc1). rewrite Hd, list_lookup_fmap, H1. split_and!; [done| |].
  - by rewrite Hf.
  - apply Hp. rewrite Ht. f_equal.
    unfold identity in Hid. congruence.
Qed.

(** X21.  What tree events do to a document.  A [tree:completed] event
    for a listed document stores the status [indexed], marks the tree as
    generated and takes the document out of the set of running
    generations.  Every other tree event ([tree:started], [tree:progress],
    [tree:error]) leaves the status as it is and marks the tree as not
    generated, also for a document whose tree had been generated. *)
Theorem tree_events_set_the_tree_flag e (p : Panel) i doc :
  documents p !! i = Some doc →
  t_doc_id e = id doc →
  (∃ doc', documents (socket_on (tree_completed_event e) p) !! i = Some doc'
           ∧ doc_status doc' = indexed
           ∧ treeGenerated doc' = Some true
           ∧ id doc ∉ generatingTreeFor (socket_on (tree_completed_event e) p))
  ∧ (∀ ev, ev = tree_started_event e ∨ ev = tree_progress_event e ∨ ev = tree_error_event e →
       ∃ doc', documents (socket_on ev p) !! i = Some doc'
               ∧ doc_status doc' = doc_status doc
               ∧ treeGenerated doc' = Some false).
Proof.
  intros Hi He. split.
  - exists (tree_updated (with_tree_status tree_completed e) doc).
    cbn [socket_on]. split; [by apply tree_updated_job|].
    split_and!; [done|done|]. cbn. rewrite He.
    apply not_elem_of_difference. right. by apply elem_of_singleton.
  - intros ev [-> | [-> | ->]]; cbn [socket_on].
    + exists (tree_updated (with_tree_status tree_started e) doc).
      split; [by apply tree_updated_job|done].
    + exists (tree_updated (with_tree_status tree_processing e) doc).
      split; [by apply tree_updated_job|done].
    + exists (tree_updated (with_tree_status tree_error e) doc).
      split; [by apply tree_updated_job|]. done.
Qed.

Lemma generating_socket_on ev (p : Panel) j :
  j ∈ generatingTreeFor (socket_on ev p) ↔ j ∈ generatingTreeFor p ∧ finished ev ≠ Some j.
Proof.
  assert (∀ S : gset Z, j ∈ S ↔ j ∈ S ∧ (None : option Z) ≠ Some j) as Hnone.
  { intros S. split; [by intros ?|by intros [? _]]. }
  assert (∀ (S : gset Z) d, j ∈ S ∖ {[d]} ↔ j ∈ S ∧ Some d ≠ Some j) as Hsome.
  { intros S d. rewrite elem_of_difference, elem_of_singleton.
    split; intros [? ?]; split; congruence. }
  destruct ev as [|e|e|e|e|e|e|e|e]; cbn [socket_on finished].
  1: apply Hnone.
  1-4: unfold onDocumentUpdate; destruct (status _); apply Hnone.
  1-2: apply Hnone.
  all: apply Hsome.
Qed.

(** X22.  The set of running generations only shrinks under socket
    events.  After any sequence of events a document is in
    [generatingTreeFor] exactly when it was in it before and no
    [tree:completed] or [tree:error] event for it has arrived; no event
    ever puts a document into the set. *)
Theorem running_generations_only_shrink evs (p : Panel) j :
  j ∈ generatingTreeFor (deliver evs p)
  ↔ j ∈ generatingTreeFor p ∧ Forall (λ ev, finished ev ≠ Some j) evs.
Proof.
  revert p. induction evs as [|ev evs IH]; intros p.
  - cbn. split; [intros ?; split; [done|constructor]|by intros [? _]].
  - cbn [deliver fold_left]. fold (deliver evs (socket_on ev p)).
    rewrite IH, generating_socket_on, Forall_cons. tauto.
Qed.

(** X23.  Which events raise a toast.  A socket event adds at most one
    toast and removes none.  [document:processing], [document:indexed]
    and a failed connection attempt add none; [document:update] adds one
    exactly when its status is [error]; [document:error] adds one error
    toast; every tree event adds exactly one toast, under the toast id of
    its document, whether the panel lists that document or not. *)
Theorem toasts_raised_by_an_event ev (p : Panel) :
  ∃ ts, toasts (socket_on ev p) = toasts p ++ ts
        ∧ length ts ≤ 1
        ∧ match ev with
          | connect_error | document_processing _ | document_indexed _ => ts = []
          | document_update e => ts = [] ↔ status e ≠ error
          | document_error e =>
              ts = [ {| toast_kind := toast_error;
                        toast_text := message_or (message e) DocumentProcessingFailed;
                        toast_id := None |} ]
          | tree_started_event e | tree_progress_event e
          | tree_completed_event e | tree_error_event e =>
              ∃ k text, ts = [ {| toast_kind := k; toast_text := text;
                                  toast_id := Some (t_doc_id e) |} ]
          end.
Proof.
  assert (∀ (q : Panel) (P : list ToastCall → Prop),
            toasts q = toasts p → P [] →
            ∃ ts, toasts q = toasts p ++ ts ∧ length ts ≤ 1 ∧ P ts) as Hnone.
  { intros q P Hq HP. exists []. rewrite app_nil_r. split_and!; [done|cbn; lia|done]. }
  assert (∀ (q : Panel) (P : list ToastCall → Prop) tc,
            toasts q = toasts p ++ [tc] → P [tc] →
            ∃ ts, toasts q = toasts p ++ ts ∧ length ts ≤ 1 ∧ P ts) as Hone.
  { intros q P tc Hq HP. exists [tc]. split_and!; [done|cbn; lia|done]. }
  destruct ev as [|e|e|e|e|e|e|e|e]; cbn [socket_on].
  - by apply Hnone.
  - unfold onDocumentUpdate. destruct (status e) eqn:Hs.
    1-3: by apply Hnone.
    eapply Hone; [reflexivity|]. split; [done|congruence].
  - by apply Hnone.
  - by apply Hnone.
  - by eapply Hone.
  - eapply Hone; [reflexivity|]. by eexists _, _.
  - eapply Hone; [reflexivity|]. by eexists _, _.
  - eapply Hone; [reflexivity|]. by eexists _, _.
  - eapply Hone; [reflexivity|]. by eexists _, _.
Qed.

(** X24.  Deleting a document.  Without a document to delete the
    confirmation does nothing.  When the API call succeeds, every record
    with the id of the deleted document is gone and the other documents
    stay in their order, the dialog is closed and one success toast is
    shown; events for the deleted id that arrive afterwards no longer
    change any record.  When the API call fails, the documents and the
    dialog stay as they are and one error toast is shown, with the
    message of the error or, if it has none, the default text. *)
Theorem delete_removes_the_document (doc : Document) (st : Dialog * Panel) :
  handleDeleteConfirm None resolved st = st
  ∧ (let st' := handleDeleteConfirm (Some doc) resolved st in
     documents (snd st') = filter (λ doc', id doc' ≠ id doc) (documents (snd st))
     ∧ job (id doc) (snd st') = None
     ∧ (∀ doc', doc' ∈ documents (snd st') ↔ doc' ∈ documents (snd st) ∧ id doc' ≠ id doc)
     ∧ fst st' = {| deleteDialogOpen := false; documentToDelete := None |}
     ∧ toasts (snd st')
       = toasts (snd st)
         ++ [ {| toast_kind := toast_success;
                 toast_text := Text "Document deleted successfully"; toast_id := None |} ]
     ∧ ∀ evs, Forall (λ ev, target ev = Some (id doc)) evs →
              documents (deliver evs (snd st')) = documents (snd st'))
  ∧ (∀ m, let st' := handleDeleteConfirm (Some doc) (rejected m) st in
          documents (snd st') = documents (snd st)
          ∧ fst st' = fst st
          ∧ toasts (snd st')
            = toasts (snd st)
              ++ [ {| toast_kind := toast_error;
                      toast_text := message_or m (Text "Failed to delete document");
                      toast_id := None |} ]).
Proof.
  split; [done|]. split; [|done]. cbn zeta. cbn [handleDeleteConfirm fst snd].
  set (p' := toast _ _ _ _).
  assert (documents p' = filter (λ doc', id doc' ≠ id doc) (documents (snd st))) as Hd by done.
  assert (∀ doc', doc' ∈ documents p' ↔ doc' ∈ documents (snd st) ∧ id doc' ≠ id doc) as Hin.
  { intros doc'. rewrite Hd, list_elem_of_filter. tauto. }
  split_and!; try done.
  - unfold job. destruct (find _ _) as [d|] eqn:Hf; [|done].
    apply find_some in Hf as [Hf1 Hf2]. apply bool_decide_eq_true in Hf2.
    apply list_elem_of_In, Hin in Hf1 as [_ Hne]. done.
  - intros evs Hev. apply (unlisted_job_ignored evs p' (id doc)); [|done].
    intros doc' Hdoc'. by apply Hin in Hdoc' as [_ ?].
Qed.

End PanelFacts.

(** ** The further statements at work *)

Section MoreRuns.

Import Js WebSocket Chat Observe Scenario Cover.

Lemma listeners_have_no_duplicates_witness :
  (∀ e, NoDup (handlers_of (@new_manager Handler) e))
  ∧ ∀ e, NoDup (handlers_of (on "query:error" (handleQueryError 0) new_manager) e).
Proof.
  assert (∀ e, NoDup (handlers_of (@new_manager Handler) e)) as Hn
    by (intros e; vm_compute; constructor).
  split; [exact Hn|].
  exact (proj1 (listeners_have_no_duplicates "query:error" (handleQueryError 0) new_manager Hn)).
Defined.

Lemma emit_invokes_a_subscriber_once_witness :
  NoDup (handlers_of (mgr (boot 0)) "query:error")
  ∧ length
      (filter (λ h', h' = handleQueryError 0)
         (map inv_handler
            (snd (emit_run call "query:error" (POther "x")
                    (with_mgr (λ _, on "query:error" (handleQueryError 0)
                                      (on "query:error" (handleQueryError 0) (mgr (boot 0))))
                       (boot 0))))))
    = 1.
Proof.
  assert (NoDup (handlers_of (mgr (boot 0)) "query:error")) as Hn by (vm_compute; constructor).
  split; [exact Hn|].
  exact (proj1 (proj2 (emit_invokes_a_subscriber_once call "query:error" (handleQueryError 0)
                         (POther "x") (boot 0) Hn))).
Defined.


Lemma connection_state_follows_lifecycle_witness :
  socket (mgr (mount 0)) ≠ None
  ∧ getConnectionState (state_of (fire call In_connect (mount 0))) = state_connected.
Proof.
  assert (socket (mgr (mount 0)) ≠ None) as Hs by (vm_compute; discriminate).
  split; [exact Hs|].
  exact (proj1 (proj1 (connection_state_follows_lifecycle call (mount 0) Hs))).
Defined.

Lemma answer_text_is_concatenation_witness :
  wired (mount 0)
  ∧ ∀ q, streamedAnswer
           (live (run (query_started q
                       :: map stream_step [Answer "The "; Rendered; Answer "answer."])
                    (mount 0)))
         = "The answer.".
Proof.
  assert (wired (mount 0)) as Hw by (split; [done | vm_compute; done]).
  split; [exact Hw|].
  exact (proj1 (proj2 (answer_text_is_concatenation
                         [Answer "The "; Rendered; Answer "answer."] (mount 0) Hw))).
Defined.


Lemma completion_toast_or_type_error_witness :
  wired (mount 0)
  ∧ toasts (app (world (step (mount 0) (answer_complete done_event))))
    = [toast_success_completed (Some 120%Z) 0.25%float].
Proof.
  assert (wired (mount 0)) as Hw by (split; [done | vm_compute; done]).
  split; [exact Hw|].
  rewrite (completion_toast_or_type_error done_event (mount 0) Hw). reflexivity.
Defined.

Lemma connection_status_reaches_the_component_witness :
  socket (mgr (run [] (mount 0))) ≠ None
  ∧ isConnected (shown (run [Deliver In_connect; Render] (run [] (mount 0)))) = true.
Proof.
  assert (socket (mgr (run [] (mount 0))) ≠ None) as Hs by (vm_compute; discriminate).
  split; [exact Hs|].
  exact (proj1 (proj1 (connection_status_reaches_the_component [] 0 Hs))).
Defined.

Lemma unsent_query_fails_in_the_chat_witness :
  wired (mount 0)
  ∧ WebSocket.isConnected (mount 0) = false
  ∧ channel (run [SendQuery request; Render] (mount 0)) = channel (mount 0).
Proof.
  assert (wired (mount 0)) as Hw by (split; [done | vm_compute; done]).
  split; [exact Hw|]. split; [reflexivity|].
  destruct (unsent_query_fails_in_the_chat request (mount 0) Hw eq_refl)
    as (_ & _ & _ & _ & _ & H).
  exact H.
Defined.

Lemma failure_keeps_partial_text_witness :
  wired (mount 0)
  ∧ streamedThinking
      (shown (run (query_started q1
                   :: map stream_step [Thinking "Look"; Thinking "ing"]
                      ++ [query_error {| message := "boom"; qe_conversation_id := 1 |}; Render])
                (mount 0)))
    = "Looking".
Proof.
  assert (wired (mount 0)) as Hw by (split; [done | vm_compute; done]).
  split; [exact Hw|].
  exact (proj1 (failure_keeps_partial_text [Thinking "Look"; Thinking "ing"] q1
                  {| message := "boom"; qe_conversation_id := 1 |} (mount 0) Hw)).
Defined.

Lemma progress_is_that_of_the_last_event_witness :
  Documents.documents panel !! 0 = Some doc_in_progress
  ∧ target (Documents.document_update (bare_event 1 Documents.processing))
    = Some (Documents.id doc_in_progress)
  ∧ ∃ doc',
      Documents.documents
        (Documents.deliver
           ([Documents.tree_progress_event (bare_tree_event 1)]
            ++ [Documents.document_update (bare_event 1 Documents.processing)]) panel) !! 0
      = Some doc'
      ∧ Documents.doc_progress doc' = None.
Proof.
  split; [reflexivity|]. split; [reflexivity|].
  destruct (progress_is_that_of_the_last_event
              [Documents.tree_progress_event (bare_tree_event 1)]
              (Documents.document_update (bare_event 1 Documents.processing))
              panel 0 doc_in_progress eq_refl eq_refl) as (doc' & H1 & _ & H2).
  exists doc'. split; assumption.
Defined.

Lemma tree_events_set_the_tree_flag_witness :
  Documents.documents panel !! 1 = Some doc_indexed
  ∧ Documents.t_doc_id (bare_tree_event 2) = Documents.id doc_indexed
  ∧ ∃ doc',
      Documents.documents
        (Documents.socket_on (Documents.tree_started_event (bare_tree_event 2)) panel) !! 1
      = Some doc'
      ∧ Documents.treeGenerated doc' = Some false.
Proof.
  split; [reflexivity|]. split; [reflexivity|].
  destruct (proj2 (tree_events_set_the_tree_flag (bare_tree_event 2) panel 1 doc_indexed
                     eq_refl eq_refl)
              (Documents.tree_started_event (bare_tree_event 2)) (or_introl eq_refl))
    as (doc' & H1 & _ & H2).
  exists doc'. split; assumption.
Defined.

End MoreRuns.
